(** * SmartStore web client: the real-time monitoring page

    A shallow embedding of the streaming client of the monitoring page
    (the Svelte component holding [eventSource], [connected], [metrics] and
    [stats], with [connectSSE], [addMetric] and [disconnect]) and of the
    part of [lib/api.js] it calls ([authStore.getToken],
    [api.createEventSource]), together with the pieces of the browser the
    component leans on: [JSON.parse], object spread, [EventSource],
    [setTimeout] and [localStorage].

    Conventions.
    - A JavaScript string is the Rocq [string] of its code units, each code
      unit written on one to three bytes (so ASCII text is itself).
    - A JavaScript number read by [JSON.parse] is kept as the decimal it was
      written as; the component never computes with numbers, it only tests
      them for truthiness and stores them.
    - The component's variables and the browser resources it touches live in
      one record, [World]; handlers are computations in a small state and
      exception monad over it. *)

From Stdlib Require Import Ascii String ZArith Lia.
From stdpp Require Import gmap strings list pretty.

#[local] Set Warnings "-register-all".
Local Open Scope string_scope.
Local Open Scope list_scope.

(** ** JavaScript values *)

Module JS.
Local Open Scope Z_scope.

(** The decimal [mantissa * 10 ^ exponent] a number literal denotes; the
    Number is the binary64 value nearest to it. *)
Record Number := mkNumber { mantissa : Z; exponent : Z }.

Inductive Value :=
| Undefined
| Null
| Bool (b : bool)
| Num (n : Number)
| Str (s : string)
| Arr (elems : list Value)
| Obj (props : list (string * Value)).   (* in the order written; the last of
                                            two equal keys is the one in force *)

Definition zero : Value := Num (mkNumber 0 0).

(** A decimal is read as the Number 0 when it is 0 or when its magnitude is
    at most 2^-1075, half the smallest positive binary64 value. *)
Definition rounds_to_zero (n : Number) : bool :=
  (mantissa n =? 0) ||
  ((exponent n <? 0) &&
   (Z.abs (mantissa n) * 2 ^ 1075 <=? 10 ^ (- exponent n))).

(** ToBoolean. *)
Definition truthy (v : Value) : bool :=
  match v with
  | Undefined | Null => false
  | Bool b => b
  | Num n => negb (rounds_to_zero n)
  | Str s => negb (String.eqb s EmptyString)
  | Arr _ | Obj _ => true
  end.

(** The last binding of [k] in a property list. *)
Fixpoint assoc_last (k : string) (props : list (string * Value)) : option Value :=
  match props with
  | [] => None
  | (k', v) :: rest =>
      match assoc_last k rest with
      | Some w => Some w
      | None => if String.eqb k' k then Some v else None
      end
  end.

(** The bytes of one code unit. *)
Definition unit_bytes (u : N) : list ascii :=
  if (u <? 128)%N then [ascii_of_N u]
  else if (u <? 2048)%N then
    [ascii_of_N (192 + u / 64); ascii_of_N (128 + u mod 64)]
  else
    [ascii_of_N (224 + u / 4096); ascii_of_N (128 + (u / 64) mod 64);
     ascii_of_N (128 + u mod 64)].

(** How many bytes the code unit starting with byte [c] takes. *)
Definition unit_width (c : ascii) : nat :=
  let n := N_of_ascii c in
  if (n <? 192)%N then 1%nat
  else if (n <? 224)%N then 2%nat
  else if (n <? 240)%N then 3%nat
  else 1%nat.

(** The code units of a string, each as a one-unit string.  [fuel] bounds
    the number of units, which never exceeds the number of bytes. *)
Fixpoint units_of (fuel : nat) (bs : list ascii) : list string :=
  match fuel, bs with
  | S fuel', c :: _ =>
      let w := unit_width c in
      string_of_list_ascii (take w bs) :: units_of fuel' (drop w bs)
  | _, _ => []
  end.

Definition code_units (s : string) : list string :=
  let bs := list_ascii_of_string s in units_of (length bs) bs.

(** Pair each element with its index written in decimal, from [i] on. *)
Fixpoint indexed {A} (i : nat) (xs : list A) : list (string * A) :=
  match xs with
  | [] => []
  | x :: rest => (pretty i, x) :: indexed (S i) rest
  end.

(** The own enumerable string-keyed properties object spread copies from a
    value: those of an object, the elements of an array, the code units of a
    string, and none for the other primitives. *)
Definition own_props (v : Value) : list (string * Value) :=
  match v with
  | Obj props => props
  | Arr elems => indexed 0 elems
  | Str s => indexed 0 (Str <$> code_units s)
  | Undefined | Null | Bool _ | Num _ => []
  end.

(** Errors the page can see thrown. *)
Inductive Error :=
| SyntaxError (message : string)
| TypeError (message : string).

Definition error_message (e : Error) : string :=
  match e with SyntaxError m | TypeError m => m end.

(** The errors of the language itself.  Their texts differ from one browser
    to the next; the page reads none of them. *)
Definition json_error : Error := SyntaxError "Unexpected token in JSON".
Definition null_error : Error := TypeError "Cannot read properties of null".
Definition primitive_error : Error := TypeError "Cannot convert object to primitive value".

(** [v.k] for a value produced by [JSON.parse]: reading a property of
    [null] or [undefined] throws; arrays and primitives have none of the
    names the page reads. *)
Definition get_prop (v : Value) (k : string) : Error + Value :=
  match v with
  | Undefined | Null => inl null_error
  | Obj props => inr (default Undefined (assoc_last k props))
  | Bool _ | Num _ | Str _ | Arr _ => inr Undefined
  end.

(** Whether ToString of a value completes.  An object converts through
    [Object.prototype.toString] unless it has an own [toString] property
    (never callable in parsed JSON), in which case the conversion throws;
    an array joins the conversions of its elements, skipping [null]. *)
Fixpoint stringifies (v : Value) : bool :=
  match v with
  | Obj props => negb (bool_decide (is_Some (assoc_last "toString" props)))
  | Arr elems => forallb stringifies elems
  | Undefined | Null | Bool _ | Num _ | Str _ => true
  end.

End JS.

(** ** JSON.parse

    The JSON grammar as a character automaton feeding a pushdown automaton
    on tokens: both consume their input one symbol at a time, so the parser
    is total and [None] always is a syntax error. *)

Module JSON.
Import JS.
Local Open Scope Z_scope.

Inductive Token :=
| TLBrace | TRBrace | TLBracket | TRBracket | TColon | TComma
| TString (s : string)
| TNumber (n : Number)
| TTrue | TFalse | TNull.

(** Where the automaton stands inside a number literal. *)
Inductive NumPhase :=
| PMinus   (* after the sign: a digit must follow *)
| PZero    (* after a leading 0 *)
| PInt     (* inside the integer part *)
| PDot     (* after the point: a digit must follow *)
| PFrac    (* inside the fraction *)
| PE       (* after e or E: a sign or a digit must follow *)
| PESign   (* after the exponent's sign: a digit must follow *)
| PExp.    (* inside the exponent *)

Record NumAcc := mkNumAcc {
  neg : bool;        (* a leading minus was read *)
  digits : Z;        (* the digits read so far, point dropped *)
  scale : Z;         (* how many of them follow the point *)
  eneg : bool;       (* the exponent has a minus *)
  edigits : Z        (* the exponent's digits *)
}.

Definition number_of (a : NumAcc) : Number :=
  mkNumber (if neg a then - digits a else digits a)
           ((if eneg a then - edigits a else edigits a) - scale a).

Definition num_final (p : NumPhase) : bool :=
  match p with
  | PZero | PInt | PFrac | PExp => true
  | PMinus | PDot | PE | PESign => false
  end.

Definition digit_of (c : ascii) : option Z :=
  let n := Z.of_N (N_of_ascii c) in
  if (48 <=? n) && (n <=? 57) then Some (n - 48) else None.

Definition hex_of (c : ascii) : option N :=
  let n := N_of_ascii c in
  if ((48 <=? n) && (n <=? 57))%N then Some (n - 48)%N
  else if ((65 <=? n) && (n <=? 70))%N then Some (n - 55)%N
  else if ((97 <=? n) && (n <=? 102))%N then Some (n - 87)%N
  else None.

Definition quote : ascii := ascii_of_N 34.
Definition backslash : ascii := ascii_of_N 92.

Definition is_e (c : ascii) : bool := Ascii.eqb c "e" || Ascii.eqb c "E".

(** One more character of a number literal, or [None] when [c] cannot
    continue it. *)
Definition num_char (p : NumPhase) (a : NumAcc) (c : ascii)
  : option (NumPhase * NumAcc) :=
  let int_digit d := mkNumAcc (neg a) (10 * digits a + d) (scale a) (eneg a) (edigits a) in
  let frac_digit d := mkNumAcc (neg a) (10 * digits a + d) (scale a + 1) (eneg a) (edigits a) in
  let exp_digit d := mkNumAcc (neg a) (digits a) (scale a) (eneg a) (10 * edigits a + d) in
  let exp_sign b := mkNumAcc (neg a) (digits a) (scale a) b (edigits a) in
  match p with
  | PMinus =>
      d ← digit_of c; Some (if d =? 0 then PZero else PInt, int_digit d)
  | PZero =>
      if Ascii.eqb c "." then Some (PDot, a)
      else if is_e c then Some (PE, a) else None
  | PInt =>
      match digit_of c with
      | Some d => Some (PInt, int_digit d)
      | None =>
          if Ascii.eqb c "." then Some (PDot, a)
          else if is_e c then Some (PE, a) else None
      end
  | PDot => d ← digit_of c; Some (PFrac, frac_digit d)
  | PFrac =>
      match digit_of c with
      | Some d => Some (PFrac, frac_digit d)
      | None => if is_e c then Some (PE, a) else None
      end
  | PE =>
      match digit_of c with
      | Some d => Some (PExp, exp_digit d)
      | None =>
          if Ascii.eqb c "+" then Some (PESign, exp_sign false)
          else if Ascii.eqb c "-" then Some (PESign, exp_sign true)
          else None
      end
  | PESign | PExp => d ← digit_of c; Some (PExp, exp_digit d)
  end.

Inductive Lex :=
| LIdle                                        (* between tokens *)
| LWord (rest : list ascii) (t : Token)        (* inside true, false, null *)
| LStr (acc : list ascii)                      (* inside a string, reversed *)
| LEsc (acc : list ascii)                      (* after a backslash *)
| LHex (acc : list ascii) (k : nat) (u : N)    (* k hex digits to go *)
| LNum (p : NumPhase) (a : NumAcc).

Definition is_space (c : ascii) : bool :=
  let n := N_of_ascii c in
  ((n =? 32) || (n =? 9) || (n =? 10) || (n =? 13))%N.

(** A character met between tokens. *)
Definition idle_char (c : ascii) : option (Lex * list Token) :=
  if is_space c then Some (LIdle, [])
  else if Ascii.eqb c "{" then Some (LIdle, [TLBrace])
  else if Ascii.eqb c "}" then Some (LIdle, [TRBrace])
  else if Ascii.eqb c "[" then Some (LIdle, [TLBracket])
  else if Ascii.eqb c "]" then Some (LIdle, [TRBracket])
  else if Ascii.eqb c ":" then Some (LIdle, [TColon])
  else if Ascii.eqb c "," then Some (LIdle, [TComma])
  else if Ascii.eqb c quote then Some (LStr [], [])
  else if Ascii.eqb c "t" then Some (LWord (list_ascii_of_string "rue") TTrue, [])
  else if Ascii.eqb c "f" then Some (LWord (list_ascii_of_string "alse") TFalse, [])
  else if Ascii.eqb c "n" then Some (LWord (list_ascii_of_string "ull") TNull, [])
  else if Ascii.eqb c "-" then Some (LNum PMinus (mkNumAcc true 0 0 false 0), [])
  else
    d ← digit_of c;
    Some (LNum (if d =? 0 then PZero else PInt) (mkNumAcc false d 0 false 0), []).

Definition escape_of (c : ascii) : option ascii :=
  if Ascii.eqb c quote || Ascii.eqb c backslash || Ascii.eqb c "/" then Some c
  else if Ascii.eqb c "b" then Some (ascii_of_N 8)
  else if Ascii.eqb c "f" then Some (ascii_of_N 12)
  else if Ascii.eqb c "n" then Some (ascii_of_N 10)
  else if Ascii.eqb c "r" then Some (ascii_of_N 13)
  else if Ascii.eqb c "t" then Some (ascii_of_N 9)
  else None.

Definition lex_step (st : Lex) (c : ascii) : option (Lex * list Token) :=
  match st with
  | LIdle => idle_char c
  | LWord [] _ => None
  | LWord (x :: rest) t =>
      if Ascii.eqb c x
      then Some (match rest with [] => (LIdle, [t]) | _ => (LWord rest t, []) end)
      else None
  | LStr acc =>
      if Ascii.eqb c quote then Some (LIdle, [TString (string_of_list_ascii (rev acc))])
      else if Ascii.eqb c backslash then Some (LEsc acc, [])
      else if (N_of_ascii c <? 32)%N then None
      else Some (LStr (c :: acc), [])
  | LEsc acc =>
      if Ascii.eqb c "u" then Some (LHex acc 4 0%N, [])
      else e ← escape_of c; Some (LStr (e :: acc), [])
  | LHex acc k u =>
      d ← hex_of c;
      let u' := (16 * u + d)%N in
      Some (match k with
            | S (S k') => (LHex acc (S k') u', [])
            | _ => (LStr (rev (unit_bytes u') ++ acc), [])
            end)
  | LNum p a =>
      match num_char p a c with
      | Some (p', a') => Some (LNum p' a', [])
      | None =>
          if num_final p
          then '(st', ts) ← idle_char c; Some (st', TNumber (number_of a) :: ts)
          else None
      end
  end.

(** What the end of the text closes. *)
Definition lex_end (st : Lex) : option (list Token) :=
  match st with
  | LIdle => Some []
  | LNum p a => if num_final p then Some [TNumber (number_of a)] else None
  | LWord _ _ | LStr _ | LEsc _ | LHex _ _ _ => None
  end.

Fixpoint lex (st : Lex) (cs : list ascii) : option (list Token) :=
  match cs with
  | [] => lex_end st
  | c :: rest =>
      '(st', ts) ← lex_step st c;
      ts' ← lex st' rest;
      Some (ts ++ ts')
  end.

(** A container whose next element is being read. *)
Inductive Frame :=
| FArr (acc : list Value)                          (* elements so far, reversed *)
| FObj (acc : list (string * Value)) (key : string).

Inductive Mode :=
| MValue                                           (* a value must follow *)
| MArrFirst                                        (* after [: a value or ] *)
| MObjFirst                                        (* after {: a key or } *)
| MObjKey (acc : list (string * Value))            (* after a comma in an object *)
| MColon (acc : list (string * Value)) (key : string)
| MDone (v : Value).                               (* a value is complete *)

Definition scalar_of (t : Token) : option Value :=
  match t with
  | TString s => Some (Str s)
  | TNumber n => Some (Num n)
  | TTrue => Some (Bool true)
  | TFalse => Some (Bool false)
  | TNull => Some Null
  | _ => None
  end.

(** The start of a value. *)
Definition open_value (stack : list Frame) (t : Token) : option (list Frame * Mode) :=
  match t with
  | TLBracket => Some (FArr [] :: stack, MArrFirst)
  | TLBrace => Some (stack, MObjFirst)
  | _ => v ← scalar_of t; Some (stack, MDone v)
  end.

Definition parse_step (st : list Frame * Mode) (t : Token) : option (list Frame * Mode) :=
  let '(stack, mode) := st in
  match mode, t with
  | MValue, _ => open_value stack t
  | MArrFirst, TRBracket =>
      match stack with
      | FArr _ :: below => Some (below, MDone (Arr []))
      | _ => None
      end
  | MArrFirst, _ => open_value stack t
  | MObjFirst, TRBrace => Some (stack, MDone (Obj []))
  | MObjFirst, TString k => Some (stack, MColon [] k)
  | MObjKey acc, TString k => Some (stack, MColon acc k)
  | MColon acc k, TColon => Some (FObj acc k :: stack, MValue)
  | MDone v, TComma =>
      match stack with
      | FArr acc :: below => Some (FArr (v :: acc) :: below, MValue)
      | FObj acc k :: below => Some (below, MObjKey ((k, v) :: acc))
      | [] => None
      end
  | MDone v, TRBracket =>
      match stack with
      | FArr acc :: below => Some (below, MDone (Arr (rev (v :: acc))))
      | _ => None
      end
  | MDone v, TRBrace =>
      match stack with
      | FObj acc k :: below => Some (below, MDone (Obj (rev ((k, v) :: acc))))
      | _ => None
      end
  | _, _ => None
  end.

Fixpoint parse_tokens (st : list Frame * Mode) (ts : list Token) : option Value :=
  match ts with
  | [] => match st with ([], MDone v) => Some v | _ => None end
  | t :: rest => st' ← parse_step st t; parse_tokens st' rest
  end.

(** [JSON.parse(text)]: [None] stands for the SyntaxError it throws. *)
Definition parse (text : string) : option Value :=
  ts ← lex LIdle (list_ascii_of_string text);
  parse_tokens ([], MValue) ts.

End JSON.

(** ** The page and the browser around it *)

Import JS.

Inductive ReadyState := CONNECTING | OPEN | CLOSED.

#[global] Instance ReadyState_eq_dec : EqDecision ReadyState.
Proof. solve_decision. Defined.

(** An [EventSource] object.  Every one the page constructs gets the same
    handlers (those of [connectSSE]), so only its transport state is kept. *)
Record EventSource := mkEventSource { url : string; readyState : ReadyState }.

(** A pending [setTimeout]; the only callback the page passes is
    [() => connectSSE()]. *)
Record Timer := mkTimer { set_at : N; delay : N }.

Inductive Severity := info | success | warning | error.

(** The text of a log line: a literal, or the template literal
    [`${data.metric}: ${data.value}`] with its two values still to be
    written out. *)
Inductive Message :=
| Text (s : string)
| Template (metric value : Value).

Record LogEntry := mkLogEntry {
  timestamp : string;
  message : Message;
  type : Severity
}.

Record World := mkWorld {
  (* the component's variables *)
  eventSource : option nat;             (* handle of an EventSource, or null *)
  connected : bool;
  metrics : list LogEntry;
  stats : gmap string Value;
  (* the browser *)
  sources : list EventSource;           (* every EventSource made, by handle *)
  timers : list Timer;                  (* pending timeouts *)
  clock : N;                            (* milliseconds *)
  localStorage : gmap string string;
  (* the environment *)
  VITE_API_URL : option string;         (* import.meta.env.VITE_API_URL *)
  url_error : string → option string;   (* message of the SyntaxError for a URL that does not parse *)
  toLocaleTimeString : N → string
}.

Definition set_eventSource (x : option nat) (w : World) : World :=
  mkWorld x (connected w) (metrics w) (stats w) (sources w) (timers w)
    (clock w) (localStorage w) (VITE_API_URL w) (url_error w) (toLocaleTimeString w).

Definition set_connected (x : bool) (w : World) : World :=
  mkWorld (eventSource w) x (metrics w) (stats w) (sources w) (timers w)
    (clock w) (localStorage w) (VITE_API_URL w) (url_error w) (toLocaleTimeString w).

Definition set_metrics (x : list LogEntry) (w : World) : World :=
  mkWorld (eventSource w) (connected w) x (stats w) (sources w) (timers w)
    (clock w) (localStorage w) (VITE_API_URL w) (url_error w) (toLocaleTimeString w).

Definition set_stats (x : gmap string Value) (w : World) : World :=
  mkWorld (eventSource w) (connected w) (metrics w) x (sources w) (timers w)
    (clock w) (localStorage w) (VITE_API_URL w) (url_error w) (toLocaleTimeString w).

Definition set_sources (x : list EventSource) (w : World) : World :=
  mkWorld (eventSource w) (connected w) (metrics w) (stats w) x (timers w)
    (clock w) (localStorage w) (VITE_API_URL w) (url_error w) (toLocaleTimeString w).

Definition set_timers (x : list Timer) (w : World) : World :=
  mkWorld (eventSource w) (connected w) (metrics w) (stats w) (sources w) x
    (clock w) (localStorage w) (VITE_API_URL w) (url_error w) (toLocaleTimeString w).

Definition set_clock (x : N) (w : World) : World :=
  mkWorld (eventSource w) (connected w) (metrics w) (stats w) (sources w) (timers w)
    x (localStorage w) (VITE_API_URL w) (url_error w) (toLocaleTimeString w).

(** *** Computations: state and exceptions

    A statement runs in a world and either completes or throws; what it
    assigned before throwing stays assigned. *)

Inductive Outcome (A : Type) :=
| Return (a : A) (w : World)
| Throw (e : Error) (w : World).
Arguments Return {A} a w.
Arguments Throw {A} e w.

Definition M (A : Type) : Type := World → Outcome A.

#[global] Instance M_ret : MRet M := λ A a w, Return a w.
#[global] Instance M_bind : MBind M := λ A B f m w,
  match m w with
  | Return a w' => f a w'
  | Throw e w' => Throw e w'
  end.

Definition throw {A} (e : Error) : M A := λ w, Throw e w.
Definition gets {A} (f : World → A) : M A := λ w, Return (f w) w.
Definition modify (f : World → World) : M unit := λ w, Return () (f w).

(** [try { body } catch (err) { handler }] *)
Definition try_catch {A} (body : M A) (handler : Error → M A) : M A := λ w,
  match body w with
  | Return a w' => Return a w'
  | Throw e w' => handler e w'
  end.

Definition lift_sum {A} (r : Error + A) : M A :=
  match r with inl e => throw e | inr a => mret a end.

(** The world a computation leaves, and the exception it let through. *)
Definition run {A} (m : M A) (w : World) : World * option Error :=
  match m w with
  | Return _ w' => (w', None)
  | Throw e w' => (w', Some e)
  end.

(** *** Browser objects *)

(** [new EventSource(url)]: throws when the URL does not parse, otherwise
    the new object starts connecting. *)
Definition new_EventSource (u : string) : M nat := λ w,
  match url_error w u with
  | Some msg => Throw (SyntaxError msg) w
  | None =>
      Return (length (sources w))
             (set_sources (sources w ++ [mkEventSource u CONNECTING]) w)
  end.

Definition close_source (es : EventSource) : EventSource :=
  mkEventSource (url es) CLOSED.

(** [es.close()] *)
Definition EventSource_close (h : nat) : M unit :=
  modify (λ w, set_sources (alter close_source h (sources w)) w).

(** [setTimeout(() => connectSSE(), ms)] *)
Definition setTimeout_connectSSE (ms : N) : M unit :=
  modify (λ w, set_timers (timers w ++ [mkTimer (clock w) ms]) w).

(** [JSON.parse(text)] as a statement. *)
Definition JSON_parse (text : string) : M Value :=
  match JSON.parse text with
  | Some v => mret v
  | None => throw json_error
  end.

(** [{ ...target, ...source }] *)
Definition spread (target : gmap string Value) (source : Value) : gmap string Value :=
  foldl (λ m kv, <[kv.1 := kv.2]> m) target (own_props source).

(** [`${v}`]: throws when the value has no string form. *)
Definition to_string_check (v : Value) : M unit :=
  if stringifies v then mret ()
  else throw primitive_error.

(** ** lib/api.js *)

Definition API_BASE_URL (w : World) : string :=
  match VITE_API_URL w with
  | Some u => if String.eqb u EmptyString then "http://localhost:8000/api/v1" else u
  | None => "http://localhost:8000/api/v1"
  end.

(** [authStore.getToken]: [localStorage.getItem("token")], [None] for null. *)
Definition getToken : M (option string) := gets (λ w, localStorage w !! "token").

(** [`${token}`] for a string or null. *)
Definition token_text (token : option string) : string := default "null" token.

(** [api.createEventSource] *)
Definition createEventSource (endpoint : string) : M nat :=
  token ← getToken;
  base ← gets API_BASE_URL;
  new_EventSource (base +:+ endpoint +:+ "?token=" +:+ token_text token).

(** ** The monitoring page *)

Definition initial_stats : gmap string Value :=
  <["total_keys" := zero]> (<["cache_hit_rate" := zero]>
  (<["avg_response_time_ms" := zero]> (<["requests_per_second" := zero]> ∅))).

Definition addMetric (message : Message) (type : Severity) : M unit :=
  timestamp ← gets (λ w, toLocaleTimeString w (clock w));
  modify (λ w, set_metrics (mkLogEntry timestamp message type :: take 99 (metrics w)) w).

(** [eventSource.close()] on the page's variable. *)
Definition close_current : M unit :=
  es ← gets eventSource;
  match es with
  | Some h => EventSource_close h
  | None => throw null_error
  end.

(** What [connectSSE] can throw is thrown by [createEventSource]; the
    assignments of [onopen], [onerror] and the three listeners that follow
    in its [try] block always complete, and show here as the handlers every
    source has (see [step]). *)
Definition connectSSE : M unit :=
  try_catch
    (es ← createEventSource "/streaming/metrics";
     modify (set_eventSource (Some es)))
    (λ err, addMetric (Text ("Failed to connect: " +:+ error_message err)) error).

(** The handlers [connectSSE] installs on the source it made.  They read
    and assign the page's variables, not the source they are called for. *)

Definition onopen : M unit :=
  modify (set_connected true);;
  addMetric (Text "✓ Connected to real-time stream") success.

Definition on_initial_stats (event_data : string) : M unit :=
  data ← JSON_parse event_data;
  modify (λ w, set_stats (spread (stats w) data) w);;
  addMetric (Text "Initial stats received") info.

Definition on_message (event_data : string) : M unit :=
  data ← JSON_parse event_data;
  metric ← lift_sum (get_prop data "metric");
  (if truthy metric then
     to_string_check metric;;
     value ← lift_sum (get_prop data "value");
     to_string_check value;;
     addMetric (Template metric value) info
   else mret ());;
  cache_hit_rate ← lift_sum (get_prop data "cache_hit_rate");
  match cache_hit_rate with
  | Undefined => mret ()
  | _ => modify (λ w, set_stats (spread (stats w) data) w)
  end.

Definition on_heartbeat (event_data : string) : M unit := mret ().

Definition onerror : M unit :=
  modify (set_connected false);;
  addMetric (Text "✗ Connection lost, reconnecting...") error;;
  close_current;;
  setTimeout_connectSSE 3000.

Definition disconnect : M unit :=
  es ← gets eventSource;
  match es with
  | Some h =>
      EventSource_close h;;
      modify (set_connected false);;
      addMetric (Text "Disconnected from stream") warning
  | None => mret ()
  end.

(** *** What reaches the page

    The browser calls into the page when the component is mounted or
    destroyed, when a button is clicked, when a source opens, receives an
    event or fails, and when a timeout is due.  A closed source dispatches
    nothing; the events the server sends, whatever their name, are
    dispatched only by an open source. *)

Inductive Event :=
| Mount                                   (* onMount *)
| Destroy                                 (* onDestroy *)
| ClickConnect                            (* the Connect button, rendered while not connected *)
| ClickDisconnect                         (* the Disconnect button, rendered while connected *)
| Opened (h : nat)                        (* source h established its connection *)
| Received (h : nat) (name data : string) (* source h received an event the server sent *)
| Failed (h : nat) (fatal : bool)         (* source h lost or failed its connection *)
| TimerFired (i : nat)                    (* the i-th pending timeout fires *)
| Tick (dt : N).                          (* time passes *)

Definition ready (h : nat) (w : World) : option ReadyState :=
  readyState <$> sources w !! h.

Definition set_ready (h : nat) (r : ReadyState) (w : World) : World :=
  set_sources (alter (λ es, mkEventSource (url es) r) h (sources w)) w.

(** What handles an event of a given name: the three listeners added by
    name, and [onopen] and [onerror], which handle every event named
    [open] or [error], one the server sends under that name included. *)
Definition listener (name : string) : option (string → M unit) :=
  if String.eqb name "initial_stats" then Some on_initial_stats
  else if String.eqb name "message" then Some on_message
  else if String.eqb name "heartbeat" then Some on_heartbeat
  else if String.eqb name "open" then Some (λ _, onopen)
  else if String.eqb name "error" then Some (λ _, onerror)
  else None.

Definition due (t : Timer) (w : World) : bool := (set_at t + delay t <=? clock w)%N.

(** One call into the page: the world after it and the exception the
    handler let through to the browser, if any. *)
Definition step (ev : Event) (w : World) : World * option Error :=
  match ev with
  | Mount => run connectSSE w
  | Destroy => run disconnect w
  | ClickConnect => if connected w then (w, None) else run connectSSE w
  | ClickDisconnect => if connected w then run disconnect w else (w, None)
  | Opened h =>
      match ready h w with
      | Some CONNECTING => run onopen (set_ready h OPEN w)
      | _ => (w, None)
      end
  | Received h name data =>
      match ready h w, listener name with
      | Some OPEN, Some handler => run (handler data) w
      | _, _ => (w, None)
      end
  | Failed h fatal =>
      match ready h w with
      | Some CONNECTING | Some OPEN =>
          run onerror (set_ready h (if fatal then CLOSED else CONNECTING) w)
      | _ => (w, None)
      end
  | TimerFired i =>
      match timers w !! i with
      | Some t =>
          if due t w then run connectSSE (set_timers (delete i (timers w)) w)
          else (w, None)
      | None => (w, None)
      end
  | Tick dt => (set_clock (clock w + dt)%N w, None)
  end.

(** The worlds a sequence of calls goes through, exceptions dropped as the
    browser drops them after reporting. *)
Definition steps (evs : list Event) (w : World) : World :=
  foldl (λ w ev, (step ev w).1) w evs.

(** The page as first rendered, in a browser with the given storage and
    environment. *)
Definition fresh (storage : gmap string string) (api_url : option string)
    (url_err : string → option string) (fmt : N → string) : World :=
  mkWorld None false [] initial_stats [] [] 0%N storage api_url url_err fmt.

(** Sources that are not closed. *)
Definition live (w : World) : list EventSource :=
  filter (λ es, readyState es ≠ CLOSED) (sources w).

(** The connection state of the design document, read off the page's
    variables and the browser. *)
Inductive ConnectionState := Disconnected | Connecting | Connected | ReconnectScheduled.

Definition connectionState (w : World) : ConnectionState :=
  if connected w then Connected
  else
    match eventSource w ≫= (λ h, ready h w) with
    | Some CONNECTING | Some OPEN => Connecting
    | _ => match timers w with [] => Disconnected | _ => ReconnectScheduled end
    end.


(** ** Vocabulary for the properties *)

(** Whether a parsed payload has the field [k] (JSON has no [undefined], so
    a field that is there differs from [undefined]). *)
Definition has_field (data : Value) (k : string) : bool :=
  match get_prop data k with
  | inr Undefined | inl _ => false
  | inr _ => true
  end.

(** The world the [message] listener leaves when it completes on [data]
    with [data.metric] and [data.value] read as [metric] and [value]. *)
Definition after_message (data metric value : Value) (w : World) : World :=
  let logged :=
    if truthy metric
    then set_metrics
           (mkLogEntry (toLocaleTimeString w (clock w)) (Template metric value) info
              :: take 99 (metrics w)) w
    else w in
  if has_field data "cache_hit_rate"
  then set_stats (spread (stats w) data) logged
  else logged.

(** A run of [addMetric] calls, each after some time has passed. *)
Fixpoint appendAll (calls : list (N * Message * Severity)) : M unit :=
  match calls with
  | [] => mret ()
  | (dt, m, t) :: rest =>
      modify (λ w, set_clock (clock w + dt)%N w);;
      addMetric m t;;
      appendAll rest
  end.

(** The entries such a run makes, oldest first, from clock [clk] on. *)
Fixpoint entries_of (fmt : N → string) (clk : N) (calls : list (N * Message * Severity))
  : list LogEntry :=
  match calls with
  | [] => []
  | (dt, m, t) :: rest =>
      mkLogEntry (fmt (clk + dt)%N) m t :: entries_of fmt (clk + dt)%N rest
  end.

(** The address [connectSSE] asks for in world [w]. *)
Definition stream_url (w : World) : string :=
  API_BASE_URL w +:+ "/streaming/metrics" +:+ "?token=" +:+ token_text (localStorage w !! "token").

Definition lost_entry (w : World) : LogEntry :=
  mkLogEntry (toLocaleTimeString w (clock w))
    (Text "✗ Connection lost, reconnecting...") error.

Definition disconnected_entry (w : World) : LogEntry :=
  mkLogEntry (toLocaleTimeString w (clock w)) (Text "Disconnected from stream") warning.

Definition opened_entry (w : World) : LogEntry :=
  mkLogEntry (toLocaleTimeString w (clock w))
    (Text "✓ Connected to real-time stream") success.

(** The world after [onopen] ran. *)
Definition opened_world (w : World) : World :=
  set_metrics (opened_entry w :: take 99 (metrics w)) (set_connected true w).

(** The world after [onerror] ran with [held] as the page's source: what
    an event named [error] leaves, whoever sent it. *)
Definition errored_world (held : nat) (w : World) : World :=
  set_timers (timers w ++ [mkTimer (clock w) 3000])
    (set_sources (alter close_source held (sources w))
       (set_metrics (lost_entry w :: take 99 (metrics w))
          (set_connected false w))).

(** The world after the browser marked source [h] as failed and [onerror]
    ran with [held] as the page's source. *)
Definition failed_world (h held : nat) (fatal : bool) (w : World) : World :=
  set_timers (timers w ++ [mkTimer (clock w) 3000])
    (set_sources
       (alter close_source held
          (alter (λ es, mkEventSource (url es) (if fatal then CLOSED else CONNECTING))
             h (sources w)))
       (set_metrics (lost_entry w :: take 99 (metrics w))
          (set_connected false w))).

(** The world after that failure, a wait of [dt] and the timeout, in a
    browser that takes the address. *)
Definition retried_world (h held : nat) (fatal : bool) (dt : N) (w : World) : World :=
  set_eventSource (Some (length (sources w)))
    (set_sources
       (sources (failed_world h held fatal w) ++ [mkEventSource (stream_url w) CONNECTING])
       (set_timers (timers w)
          (set_clock (clock w + dt) (failed_world h held fatal w)))).

(** One failed attempt of the held source and the retry that follows it. *)
Definition retry_round (w : World) : World :=
  steps [Failed (default 0 (eventSource w)) false; Tick 3000; TimerFired (length (timers w))] w.

Fixpoint retry_rounds (n : nat) (w : World) : World :=
  match n with
  | O => w
  | S n' => retry_rounds n' (retry_round w)
  end.

(** Nothing is pending: no timer is set, every source is closed and the
    Disconnect button is not rendered. *)
Definition quiet (w : World) : Prop :=
  connected w = false ∧
  timers w = [] ∧
  Forall (λ es, readyState es = CLOSED) (sources w).

(** A call into the page other than a mount, a click on Connect or a
    teardown. *)
Definition unprompted (ev : Event) : bool :=
  match ev with
  | Mount | Destroy | ClickConnect => false
  | ClickDisconnect | Opened _ | Received _ _ _ | Failed _ _ | TimerFired _ | Tick _ => true
  end.

(** The page's variable names the source made last, if any was made. *)
Definition well_formed (w : World) : Prop :=
  match eventSource w with
  | None => sources w = []
  | Some h => length (sources w) = S h
  end.

(** Worlds the page can be in: those some sequence of calls leads to from
    the first rendering. *)
Definition reachable (w : World) : Prop :=
  ∃ storage api_url url_err fmt evs, w = steps evs (fresh storage api_url url_err fmt).

(** *** Sample worlds and payloads *)

(** A page in a browser with empty storage, the default API address, a URL
    parser that accepts everything and times printed as numbers. *)
Definition page0 : World := fresh ∅ None (λ _, None) pretty.

(** The page once mounted and its first source open. *)
Definition page1 : World := steps [Mount; Opened 0] page0.

(** The page torn down while a reconnect is pending: mounted, connected,
    connection lost, component destroyed. *)
Definition torn_down : World := steps [Mount; Opened 0; Failed 0 false; Destroy] page0.

(** 150 calls a second apart, with the messages "1" to "150". *)
Definition calls150 : list (N * Message * Severity) :=
  (λ i : nat, (1000%N, Text (pretty i), info)) <$> seq 1 150.

(** JSON texts are written here with an apostrophe where the text has a
    double quote. *)
Fixpoint json (s : string) : string :=
  match s with
  | EmptyString => EmptyString
  | String c rest => String (if Ascii.eqb c "'" then ascii_of_N 34 else c) (json rest)
  end.

Definition baseline_text : string := json "{'total_keys': 10, 'cache_hit_rate': 0.5}".
Definition delta_text : string := json "{'cache_hit_rate': 0.9}".
Definition extra_text : string := json "{'cache_hit_rate': 0.9, 'uptime': true}".
Definition pair_text : string := json "{'metric': 'hits', 'value': 7, 'cache_hit_rate': 0.9}".
Definition total_keys_text : string := json "{'total_keys': 5}".

(** *** More sample payloads *)

Definition null_text : string := "null".
Definition shadowed_text : string :=
  json "{'metric': {'toString': 1}, 'cache_hit_rate': 0.9}".

(** ** The rest of lib/api.js, and App.svelte

    [api.request] and [api.login] wait for the network.  Each is cut at its
    [await fetch]: the part before builds what is sent, the part after takes
    what came back as an argument. *)

(** *** Number::toString

    A number is held as the decimal it was written as.  Where that decimal
    has at most 15 significant digits and lies well inside the range of
    the doubles, it is the shortest decimal that reads back as the same
    double, so the language writes the number from its digits by the rules
    of Number::toString: plain digits up to 21 places, a leading [0.] down
    to six zeros, the exponent form beyond.  Zero is written [0], whatever
    its sign.  For every other number (more digits, or a magnitude near
    the ends of the range) the text depends on the rounding to a double
    and is the platform's to give. *)

Fixpoint drop_zeros (ds : list ascii) : list ascii :=
  match ds with
  | "0"%char :: rest => drop_zeros rest
  | _ => ds
  end.

(** The digits [ds] of a number, without trailing zeros, and the place [n]
    of its decimal point: the number is [0.ds] times ten to the [n]. *)
Definition significand (x : Number) : list ascii * Z :=
  let all := list_ascii_of_string (pretty (Z.abs_N (mantissa x))) in
  (reverse (drop_zeros (reverse all)), (exponent x + Z.of_nat (length all))%Z).

Definition written_exactly (x : Number) : bool :=
  let '(ds, n) := significand x in
  (mantissa x =? 0)%Z
  || ((length ds <=? 15)%nat && (-300 <=? n)%Z && (n <=? 300)%Z).

(** Number::toString on the digits. *)
Definition decimal_text (x : Number) : string :=
  let '(ds, n) := significand x in
  let k := Z.of_nat (length ds) in
  let digits :=
    if (k <=? n)%Z && (n <=? 21)%Z then
      ds ++ replicate (Z.to_nat (n - k)) "0"%char
    else if (0 <? n)%Z && (n <=? 21)%Z then
      take (Z.to_nat n) ds ++ "."%char :: drop (Z.to_nat n) ds
    else if (-6 <? n)%Z && (n <=? 0)%Z then
      "0"%char :: "."%char :: replicate (Z.to_nat (- n)) "0"%char ++ ds
    else
      take 1 ds
      ++ (match drop 1 ds with [] => [] | rest => "."%char :: rest end)
      ++ "e"%char :: (if (n - 1 <? 0)%Z then "-"%char else "+"%char)
      :: list_ascii_of_string (pretty (Z.abs_N (n - 1))) in
  if (mantissa x =? 0)%Z then "0"
  else string_of_list_ascii ((if (mantissa x <? 0)%Z then ["-"%char] else []) ++ digits).

(** [platform] answers for the numbers the digits do not settle. *)
Definition Number_toString (platform : Number → string) (x : Number) : string :=
  if written_exactly x then decimal_text x else platform x.

(** ToString of a value, given the platform's text for the numbers left to
    it.  An array joins the texts of its elements with commas, [null] and
    [undefined] elements counting as empty; the first element without a
    text makes the whole conversion throw. *)
Fixpoint ToString (number_text : Number → string) (v : Value) : Error + string :=
  match v with
  | Undefined => inr "undefined"
  | Null => inr "null"
  | Bool b => inr (if b then "true" else "false")
  | Num n => inr (Number_toString number_text n)
  | Str s => inr s
  | Obj props =>
      match assoc_last "toString" props with
      | Some _ => inl primitive_error
      | None => inr "[object Object]"
      end
  | Arr elems =>
      (fix join (first : bool) (es : list Value) : Error + string :=
         match es with
         | [] => inr EmptyString
         | e :: rest =>
             match (match e with
                    | Undefined | Null => inr EmptyString
                    | _ => ToString number_text e
                    end), join false rest with
             | inl err, _ => inl err
             | inr _, inl err => inl err
             | inr s, inr t => inr ((if first then s else "," +:+ s) +:+ t)
             end
         end) true elems
  end.

(** What the application adds to the monitoring page's world: the address
    bar, the flag of [App.svelte] and the platform's number formatting. *)
Record Site := mkSite {
  world : World;
  href : string;                      (* window.location.href, as last assigned *)
  isAuthenticated : bool;             (* App.svelte *)
  number_text : Number → string       (* the platform's text for a number, see [Number_toString] *)
}.

Definition set_world (x : World) (s : Site) : Site :=
  mkSite x (href s) (isAuthenticated s) (number_text s).
Definition set_href (x : string) (s : Site) : Site :=
  mkSite (world s) x (isAuthenticated s) (number_text s).
Definition set_isAuthenticated (x : bool) (s : Site) : Site :=
  mkSite (world s) (href s) x (number_text s).

Definition set_localStorage (x : gmap string string) (w : World) : World :=
  mkWorld (eventSource w) (connected w) (metrics w) (stats w) (sources w) (timers w)
    (clock w) x (VITE_API_URL w) (url_error w) (toLocaleTimeString w).

(** What can be thrown: an error of the language, or an [Error] object made
    with [new Error(message)]. *)
Inductive Exn :=
| JsError (e : Error)
| PlainError (message : string).

Inductive Res (A : Type) :=
| Done (a : A) (s : Site)
| Fail (e : Exn) (s : Site).
Arguments Done {A} a s.
Arguments Fail {A} e s.

Definition Api (A : Type) : Type := Site → Res A.

#[global] Instance Api_ret : MRet Api := λ A a s, Done a s.
#[global] Instance Api_bind : MBind Api := λ A B f m s,
  match m s with
  | Done a s' => f a s'
  | Fail e s' => Fail e s'
  end.

Definition raise {A} (e : Exn) : Api A := λ s, Fail e s.
Definition read {A} (f : Site → A) : Api A := λ s, Done (f s) s.
Definition update (f : Site → Site) : Api unit := λ s, Done () (f s).

Definition api_try {A} (body : Api A) (handler : Exn → Api A) : Api A := λ s,
  match body s with
  | Done a s' => Done a s'
  | Fail e s' => handler e s'
  end.

Definition of_sum {A} (r : Error + A) : Api A :=
  match r with inl e => raise (JsError e) | inr a => mret a end.

(** *** authStore *)

Definition storage (s : Site) : gmap string string := localStorage (world s).

Definition update_storage (f : gmap string string → gmap string string) : Api unit :=
  update (λ s, set_world (set_localStorage (f (storage s)) (world s)) s).

(** [authStore.getToken], as [createEventSource] reads it. *)
Definition authStore_getToken : Api (option string) := read (λ s, storage s !! "token").

(** [authStore.setToken]: [localStorage.setItem] stores the text of whatever
    it is given. *)
Definition authStore_setToken (token : Value) : Api unit :=
  fmt ← read number_text;
  text ← of_sum (ToString fmt token);
  update_storage (insert "token" text).

Definition authStore_clearToken : Api unit := update_storage (delete "token").

(** [!!localStorage.getItem("token")] *)
Definition authStore_isAuthenticated : Api bool :=
  token ← authStore_getToken;
  mret (match token with
        | Some text => negb (String.eqb text EmptyString)
        | None => false
        end).

(** *** api.request *)

Inductive Body :=
| JsonOf (v : Value)                         (* JSON.stringify(v) *)
| FormOf (fields : list (string * string)).  (* URLSearchParams, in append order *)

(** The [options] a caller passes. *)
Record Options := mkOptions {
  opt_method : option string;
  opt_body : option Body;
  opt_headers : option (list (string * string))
}.

Definition no_options : Options := mkOptions None None None.

(** What [fetch] is called with. *)
Record Request := mkRequest {
  req_url : string;
  req_method : option string;              (* undefined: GET *)
  req_headers : gmap string string;
  req_body : option Body
}.

(** What [fetch] and reading the response come back with. *)
Inductive Fetched :=
| NetworkFailure (message : string)              (* fetch rejects with a TypeError *)
| Response (status : nat) (text : option string). (* None: the body cannot be read *)

Definition ok (status : nat) : bool := (200 <=? status)%nat && (status <=? 299)%nat.

(** The headers object: the defaults, then the caller's. *)
Definition request_headers (token : option string) (options : Options)
  : gmap string string :=
  let defaults : gmap string string := {[ "Content-Type" := "application/json" ]} in
  let with_token :=
    match token with
    | Some text =>
        if String.eqb text EmptyString then defaults
        else <["Authorization" := "Bearer " +:+ text]> defaults
    | None => defaults
    end in
  foldl (λ m kv, <[kv.1 := kv.2]> m) with_token (default [] (opt_headers options)).

(** [api.request] up to its [fetch]. *)
Definition request_prepare (endpoint : string) (options : Options) : Api Request :=
  token ← authStore_getToken;
  base ← read (λ s, API_BASE_URL (world s));
  mret (mkRequest (base +:+ endpoint) (opt_method options)
          (request_headers token options) (opt_body options)).

(** [text ? JSON.parse(text) : {}] inside its [try]. *)
Definition read_body (text : option string) : Api Value :=
  match text with
  | None => raise (PlainError "Backend returned invalid JSON")
  | Some t =>
      if String.eqb t EmptyString then mret (Obj [])
      else match JSON.parse t with
           | Some v => mret v
           | None => raise (PlainError "Backend returned invalid JSON")
           end
  end.

(** [data.detail || data.error || data.message || "Request failed"] *)
Definition failure_reason (data : Value) : Api Value :=
  detail ← of_sum (get_prop data "detail");
  if truthy detail then mret detail else
  err ← of_sum (get_prop data "error");
  if truthy err then mret err else
  msg ← of_sum (get_prop data "message");
  if truthy msg then mret msg else mret (Str "Request failed").

(** [throw new Error(v)] *)
Definition throw_Error {A} (v : Value) : Api A :=
  fmt ← read number_text;
  text ← of_sum (ToString fmt v);
  raise (PlainError text).

(** [api.request] from its [fetch] on. *)
Definition request_settle (fetched : Fetched) : Api Value :=
  match fetched with
  | NetworkFailure message => raise (JsError (TypeError message))
  | Response status text =>
      if (status =? 401)%nat then
        authStore_clearToken;;
        update (set_href "/login");;
        raise (PlainError "Unauthorized")
      else
        data ← read_body text;
        if negb (ok status) then
          reason ← failure_reason data;
          throw_Error reason
        else mret data
  end.

(** *** api.login *)

Definition login_prepare (username password : string) : Api Request :=
  base ← read (λ s, API_BASE_URL (world s));
  mret (mkRequest (base +:+ "/auth/login") (Some "POST")
          {[ "Content-Type" := "application/x-www-form-urlencoded" ]}
          (Some (FormOf [("username", username); ("password", password)]))).

(** [res.json()] *)
Definition response_json (text : option string) : Api Value :=
  match text with
  | None => raise (JsError (TypeError "Failed to read the response body"))
  | Some t =>
      match JSON.parse t with
      | Some v => mret v
      | None => raise (JsError json_error)
      end
  end.

Definition login_settle (fetched : Fetched) : Api Value :=
  match fetched with
  | NetworkFailure message => raise (JsError (TypeError message))
  | Response status text =>
      if negb (ok status) then raise (PlainError "Login failed")
      else
        data ← response_json text;
        access_token ← of_sum (get_prop data "access_token");
        authStore_setToken access_token;;
        mret data
  end.

(** *** App.svelte *)

Definition App_onMount : Api unit :=
  b ← authStore_isAuthenticated;
  update (set_isAuthenticated b).

Definition handleLogin : Api unit := update (set_isAuthenticated true).

Definition handleLogout : Api unit :=
  authStore_clearToken;;
  update (set_isAuthenticated false);;
  update (set_href "/").

(** A platform for the samples: it writes every number from its digits,
    as the language does wherever the digits settle the text. *)
Definition sample_number_text (n : Number) : string := decimal_text n.

(** The site around a monitoring world, at the address [/]. *)
Definition site_of (w : World) : Site := mkSite w "/" false sample_number_text.

(** The last value given for a header name. *)
Fixpoint header_of (k : string) (hs : list (string * string)) : option string :=
  match hs with
  | [] => None
  | (k', v) :: rest =>
      match header_of k rest with
      | Some w => Some w
      | None => if String.eqb k' k then Some v else None
      end
  end.

(** *** Sample sites *)

Definition signed_in : Site :=
  mkSite (set_localStorage {[ "token" := "abc"; "theme" := "dark" ]} page0)
    "/keys" true sample_number_text.

(** The site a computation leaves, and computations that leave the one
    they started in. *)
Definition site_after {A} (r : Res A) : Site :=
  match r with Done _ s | Fail _ s => s end.

Definition keeps_site {A} (m : Api A) : Prop := ∀ s, site_after (m s) = s.

(** [err.message] *)
Definition exn_message (e : Exn) : string :=
  match e with JsError e => error_message e | PlainError m => m end.

(** *** api.trainModel and the calls it dispatches to *)

Definition post : Options := mkOptions (Some "POST") None None.

Definition trainLSTM_prepare : Api Request := request_prepare "/ml/train/lstm" post.
Definition trainIForest_prepare : Api Request := request_prepare "/ml/train/iforest" post.
Definition trainDBSCAN_prepare : Api Request := request_prepare "/ml/train/dbscan" post.

Definition trainProphet_prepare (periods : Value) : Api Request :=
  fmt ← read number_text;
  text ← of_sum (ToString fmt periods);
  request_prepare ("/ml/train/prophet?periods=" +:+ text) post.

Definition getTrainingStatus_prepare (taskId : Value) : Api Request :=
  fmt ← read number_text;
  text ← of_sum (ToString fmt taskId);
  request_prepare ("/ml/train/status/" +:+ text) no_options.

(** [v === "text"] *)
Definition is_str (v : Value) (text : string) : bool :=
  match v with Str t => String.eqb t text | _ => false end.

Definition thirty : Value := Num (mkNumber 30 0).
Definition hundred : Value := Num (mkNumber 100 0).

Definition trainModel_prepare (modelId : Value) : Api Request :=
  if is_str modelId "lstm" then trainLSTM_prepare
  else if is_str modelId "iforest" then trainIForest_prepare
  else if is_str modelId "prophet" then trainProphet_prepare thirty
  else if is_str modelId "dbscan" then trainDBSCAN_prepare
  else
    fmt ← read number_text;
    text ← of_sum (ToString fmt modelId);
    raise (PlainError ("Unknown model type: " +:+ text)).

(** The address [api.trainModel] posts to for a model it knows. *)
Definition train_endpoint (id : string) : string :=
  "/ml/train/" +:+ id +:+
  (if String.eqb id "prophet" then "?periods=30" else EmptyString).

(** ** pages/Login.svelte *)

Module Login.

Record Page := mkPage {
  username : string;
  password : string;
  error : string;
  loading : bool
}.

Definition set_error (x : string) (p : Page) : Page :=
  mkPage (username p) (password p) x (loading p).
Definition set_loading (x : bool) (p : Page) : Page :=
  mkPage (username p) (password p) (error p) x.

(** [handleLogin] from the [fetch] on; [dispatch('login')] runs the
    [handleLogin] of [App.svelte]. *)
Definition handleLogin_settle (fetched : Fetched) (p : Page) : Api Page :=
  p ← api_try
        (login_settle fetched;;
         handleLogin;;
         mret p)
        (λ err, mret (set_error "Invalid username or password" p));
  mret (set_loading false p).

End Login.

(** ** pages/MLModels.svelte *)

Module MLModels.

Record Task := mkTask {
  taskId : Value;
  status : Value;
  progress : Value
}.

Definition set_status (x : Value) (t : Task) : Task := mkTask (taskId t) x (progress t).
Definition set_progress (x : Value) (t : Task) : Task := mkTask (taskId t) (status t) x.

(** The page's [trainingTasks], the intervals that are running, each with
    the [modelId] and [taskId] its callback closes over, and the alerts
    shown so far.  [setInterval] numbers its intervals in order.  What the
    page writes to the console is not kept. *)
Record Page := mkPage {
  trainingTasks : gmap string Task;
  intervals : gmap nat (string * Value);
  next_interval : nat;
  alerts : list string
}.

Definition set_trainingTasks (x : gmap string Task) (p : Page) : Page :=
  mkPage x (intervals p) (next_interval p) (alerts p).
Definition set_intervals (x : gmap nat (string * Value)) (p : Page) : Page :=
  mkPage (trainingTasks p) x (next_interval p) (alerts p).

Definition alert (text : string) (p : Page) : Page :=
  mkPage (trainingTasks p) (intervals p) (next_interval p) (alerts p ++ [text]).

Definition clearInterval (interval : nat) (p : Page) : Page :=
  set_intervals (delete interval (intervals p)) p.

(** [pollTrainingStatus]: it only starts the interval. *)
Definition pollTrainingStatus (modelId : string) (taskId : Value) (p : Page) : Page :=
  mkPage (trainingTasks p)
         (<[next_interval p := (modelId, taskId)]> (intervals p))
         (S (next_interval p)) (alerts p).

(** [trainModel] from the [fetch] on. *)
Definition trainModel_settle (modelId : string) (fetched : Fetched) (p : Page) : Api Page :=
  api_try
    (response ← request_settle fetched;
     task_id ← of_sum (get_prop response "task_id");
     let p := set_trainingTasks
                (<[modelId := mkTask task_id (Str "PENDING") zero]> (trainingTasks p)) p in
     mret (pollTrainingStatus modelId task_id p))
    (λ err, mret (alert ("Failed to start training: " +:+ exn_message err) p)).

(** The interval's callback up to the [fetch]. *)
Definition poll_prepare (interval : nat) (taskId : Value) (p : Page)
  : Api (Page * option Request) :=
  api_try
    (r ← getTrainingStatus_prepare taskId; mret (p, Some r))
    (λ err, mret (clearInterval interval p, None)).

(** The assignments of the interval's callback, given the response.  The
    left result is the page at the point where a statement threw. *)
Definition poll_assign (modelId : string) (interval : nat) (response : Value) (p : Page)
  : Page + Page :=
  match trainingTasks p !! modelId, get_prop response "status" with
  | Some task, inr st =>
      let p := set_trainingTasks (<[modelId := set_status st task]> (trainingTasks p)) p in
      match get_prop response "progress" with
      | inr pr =>
          let p := set_trainingTasks (alter (set_progress pr) modelId (trainingTasks p)) p in
          if is_str st "SUCCESS" then
            let p := clearInterval interval p in
            inr (set_trainingTasks (alter (set_progress hundred) modelId (trainingTasks p)) p)
          else inr p
      | inl _ => inl p
      end
  | _, _ => inl p
  end.

(** The interval's callback from the [fetch] on. *)
Definition poll_settle (modelId : string) (interval : nat) (fetched : Fetched) (p : Page)
  : Api Page :=
  λ s,
    match request_settle fetched s with
    | Done response s' =>
        match poll_assign modelId interval response p with
        | inr p' => Done p' s'
        | inl p' => Done (clearInterval interval p') s'
        end
    | Fail _ s' => Done (clearInterval interval p) s'
    end.

End MLModels.

(** ** pages/Dashboard.svelte: its stream

    The dashboard keeps its own [stats] and [eventSource]; they are the
    fields of those names in the world, whose [connected], [metrics] and
    [timers] the dashboard does not have.  What it writes to the console
    is not kept. *)

Module Dashboard.

Definition initial_stats : gmap string Value :=
  <["total_keys" := zero]> (<["cache_hit_rate" := zero]>
  (<["avg_response_time_ms" := zero]> (<["requests_per_second" := zero]>
  (<["total_size_bytes" := zero]> (<["uptime_seconds" := zero]>
  (<["memory_usage_mb" := zero]> ∅)))))).

Definition connectSSE : M unit :=
  try_catch
    (es ← createEventSource "/streaming/metrics";
     modify (set_eventSource (Some es)))
    (λ err, mret ()).

Definition onmessage (event_data : string) : M unit :=
  data ← JSON_parse event_data;
  modify (λ w, set_stats (spread (stats w) data) w).

Definition onerror : M unit := close_current.

Definition onDestroy : M unit :=
  es ← gets eventSource;
  match es with
  | Some h => EventSource_close h
  | None => mret ()
  end.

End Dashboard.

(** *** Sample pages *)

Definition training : MLModels.Page :=
  MLModels.mkPage {[ "lstm" := MLModels.mkTask (Str "t1") (Str "PENDING") zero ]}
                  {[ 0 := ("lstm", Str "t1") ]} 1 [].

Definition failure_text : string := json "{'status': 'FAILURE', 'progress': 40}".
Definition success_text : string := json "{'status': 'SUCCESS', 'progress': 40}".
Definition started_text : string := json "{'task_id': 't2'}".

(** ** Tactics *)

(** Run the plumbing of [M]. *)
Ltac plumbing :=
  cbv beta iota zeta delta
    [mbind M_bind mret M_ret lift_sum throw gets modify to_string_check addMetric].

(** Unfold a call into the page down to the records. *)
Ltac run_all :=
  unfold step, run, connectSSE, try_catch, createEventSource, getToken, new_EventSource,
    disconnect, onopen, onerror, close_current, EventSource_close, setTimeout_connectSSE,
    on_heartbeat, set_ready;
  plumbing; repeat (case_match; plumbing); simplify_eq; cbn.

(** Run the plumbing of [Api]. *)
Ltac api :=
  cbv beta iota zeta delta
    [mbind Api_bind mret Api_ret raise read update api_try of_sum update_storage
     authStore_getToken authStore_setToken authStore_clearToken
     authStore_isAuthenticated throw_Error].
(** * Properties *)

(** ** Running statements *)

(** Run the monad's plumbing. *)
Ltac exec :=
  cbv beta iota zeta delta
    [mbind M_bind mret M_ret lift_sum throw gets modify to_string_check addMetric].

Lemma bind_unfold {A B} (m : M A) (f : A → M B) (w : World) :
  (m ≫= f) w = match m w with Return a w' => f a w' | Throw e w' => Throw e w' end.
Proof. reflexivity. Qed.

Lemma run_addMetric (m : Message) (t : Severity) (w : World) :
  addMetric m t w =
  Return () (set_metrics
    (mkLogEntry (toLocaleTimeString w (clock w)) m t :: take 99 (metrics w)) w).
Proof. reflexivity. Qed.

Lemma run_JSON_parse_ok (text : string) (v : Value) (w : World) :
  JSON.parse text = Some v → JSON_parse text w = Return v w.
Proof. intros H. unfold JSON_parse. by rewrite H. Qed.

Lemma run_JSON_parse_fail (text : string) (w : World) :
  JSON.parse text = None → JSON_parse text w = Throw json_error w.
Proof. intros H. unfold JSON_parse. by rewrite H. Qed.

(** ** [JSON.parse] on samples *)

Example parse_nested :
  JSON.parse (json " {'a': [1, -2.50e+3, true, null], 'b': {'c': 'd'}} ") =
  Some (Obj [("a", Arr [Num (mkNumber 1 0); Num (mkNumber (-250) 1); Bool true; Null]);
             ("b", Obj [("c", Str "d")])]).
Proof. reflexivity. Qed.

Example parse_rejects :
  JSON.parse "01" = None ∧ JSON.parse "[1,]" = None ∧ JSON.parse "{'a': 1}" = None ∧
  JSON.parse "nul" = None ∧ JSON.parse "1." = None ∧ JSON.parse "[] []" = None ∧
  JSON.parse EmptyString = None.
Proof. repeat split; reflexivity. Qed.

Example truthy_numbers :
  truthy <$> JSON.parse "0.000" = Some false ∧
  truthy <$> JSON.parse "1e-400" = Some false ∧
  truthy <$> JSON.parse "1e-300" = Some true.
Proof. repeat split; reflexivity. Qed.

Example string_props :
  own_props (Str "ab") = [("0", Str "a"); ("1", Str "b")].
Proof. reflexivity. Qed.

(** ** Object spread *)

Lemma foldl_insert_lookup (props : list (string * Value)) (m : gmap string Value) (k : string) :
  foldl (λ m kv, <[kv.1 := kv.2]> m) m props !! k =
  match assoc_last k props with Some v => Some v | None => m !! k end.
Proof.
  revert m. induction props as [|[k' v] rest IH]; intros m; simpl; [done|].
  rewrite IH. destruct (assoc_last k rest) as [x|]; [done|].
  destruct (String.eqb_spec k' k) as [->|Hne].
  - by rewrite lookup_insert_eq.
  - by rewrite lookup_insert_ne.
Qed.

(** A spread field is the source's when the source has it, the target's
    otherwise. *)
Lemma spread_lookup (m : gmap string Value) (v : Value) (k : string) :
  spread m v !! k =
  match assoc_last k (own_props v) with Some x => Some x | None => m !! k end.
Proof. apply foldl_insert_lookup. Qed.

Lemma assoc_last_is_Some (k : string) (props : list (string * Value)) :
  is_Some (assoc_last k props) ↔ k ∈ props.*1.
Proof.
  induction props as [|[k' v] rest IH]; simpl.
  - split; [by intros [? ?] | by intros ?%elem_of_nil].
  - rewrite elem_of_cons, <- IH.
    destruct (assoc_last k rest) as [x|].
    + split; intros _; eauto.
    + destruct (String.eqb_spec k' k) as [->|Hne].
      * split; intros _; eauto.
      * split; [by intros [? ?] | intros [->|[? ?]]; done].
Qed.

(** ** The activity log *)

Lemma take_100_cons_take_99 {A} (pre : list A) (e : A) (l : list A) :
  take 100 (pre ++ e :: take 99 l) = take 100 (pre ++ e :: l).
Proof.
  rewrite !take_app. f_equal.
  destruct (100 - length pre) as [|n] eqn:Hn; [done|].
  simpl. f_equal. rewrite take_take. f_equal. lia.
Qed.

(** A run of calls leaves the 100 newest of its entries and the old ones,
    newest first, and only moves the clock besides. *)
Lemma appendAll_run (calls : list (N * Message * Severity)) (w : World) :
  calls ≠ [] ∨ (length (metrics w) ≤ 100)%nat →
  appendAll calls w =
  Return ()
    (set_clock (foldl (λ clk c, clk + c.1.1)%N (clock w) calls)
       (set_metrics
          (take 100 (reverse (entries_of (toLocaleTimeString w) (clock w) calls)
                     ++ metrics w)) w)).
Proof.
  revert w. induction calls as [|[[dt m] t] rest IH]; intros w Hw.
  - destruct Hw as [?|Hlen]; [done|]. simpl. unfold mret, M_ret.
    rewrite take_ge by done. by destruct w.
  - cbn [appendAll]. rewrite bind_unfold. unfold modify at 1. cbv beta iota.
    rewrite bind_unfold, run_addMetric. cbv beta iota. rewrite IH.
    + cbn [entries_of foldl fst clock metrics toLocaleTimeString set_clock set_metrics].
      rewrite reverse_cons, <- app_assoc. cbn [app].
      rewrite take_100_cons_take_99. reflexivity.
    + right. cbn [metrics set_metrics set_clock]. rewrite length_cons, length_take. lia.
Qed.

Lemma entries_of_length (fmt : N → string) (clk : N) (calls : list (N * Message * Severity)) :
  length (entries_of fmt clk calls) = length calls.
Proof.
  revert clk. induction calls as [|[[dt m] t] rest IH]; intros clk; simpl; [done|].
  by rewrite IH.
Qed.

Lemma entries_of_message (fmt : N → string) (clk : N) (calls : list (N * Message * Severity)) :
  message <$> entries_of fmt clk calls = (λ c, c.1.2) <$> calls.
Proof.
  revert clk. induction calls as [|[[dt m] t] rest IH]; intros clk; simpl; [done|].
  by rewrite IH.
Qed.

(** C5.  Starting from an empty log, after any number [k] of [addMetric]
    calls the log holds [min k 100] entries: the entries of the calls,
    newest first, cut to the 100 most recent.  After 150 calls it holds 100
    entries and the message of the last one is that of the 51st call. *)
Theorem activity_log_keeps_latest_100 (w : World) (calls : list (N * Message * Severity)) :
  metrics w = [] →
  let w' := (run (appendAll calls) w).1 in
  (run (appendAll calls) w).2 = None ∧
  length (metrics w') = (length calls `min` 100)%nat ∧
  metrics w' = take 100 (reverse (entries_of (toLocaleTimeString w) (clock w) calls)) ∧
  (length calls = 150%nat →
   length (metrics w') = 100%nat ∧
   message <$> last (metrics w') = (λ c, c.1.2) <$> calls !! 50%nat).
Proof.
  intros Hempty. unfold run.
  rewrite appendAll_run by (right; rewrite Hempty; simpl; lia).
  cbn [fst snd metrics set_clock set_metrics]. rewrite Hempty, app_nil_r.
  set (entries := entries_of (toLocaleTimeString w) (clock w) calls).
  assert (Hentries : length entries = length calls) by apply entries_of_length.
  assert (Hlen : length (take 100 (reverse entries)) = (length calls `min` 100)%nat).
  { rewrite length_take, length_reverse. lia. }
  split; [done|]. split; [exact Hlen|]. split; [done|].
  intros H150. split; [lia|].
  rewrite last_lookup, Hlen, H150. cbn [Nat.min Nat.pred].
  rewrite lookup_take_lt by lia.
  rewrite reverse_lookup by lia.
  rewrite Hentries, H150. cbn [Nat.sub].
  rewrite <- !list_lookup_fmap. unfold entries. by rewrite entries_of_message.
Qed.

Lemma activity_log_keeps_latest_100_witness :
  metrics page0 = [] ∧
  length calls150 = 150%nat ∧
  length (metrics (run (appendAll calls150) page0).1) = 100%nat ∧
  message <$> last (metrics (run (appendAll calls150) page0).1) = Some (Text "51").
Proof.
  split; [reflexivity|]. split; [reflexivity|].
  destruct (activity_log_keeps_latest_100 page0 calls150 eq_refl) as (_ & _ & _ & H).
  destruct (H eq_refl) as [Hlen Hlast].
  split; [exact Hlen|]. rewrite Hlast. reflexivity.
Defined.

(** ** Frames *)

(** C8.  A heartbeat event changes nothing: the world after it is the world
    before it (stats, log, connection variables and transports alike), and
    nothing is thrown. *)
Theorem heartbeat_changes_nothing (w : World) (h : nat) (data : string) :
  step (Received h "heartbeat" data) w = (w, None).
Proof.
  unfold step. destruct (ready h w) as [[]|]; reflexivity.
Qed.

(** What the [initial_stats] listener does with a payload that parses. *)
Lemma on_initial_stats_parsed (raw : string) (data : Value) (w : World) :
  JSON.parse raw = Some data →
  on_initial_stats raw w =
  Return () (set_metrics
    (mkLogEntry (toLocaleTimeString w (clock w)) (Text "Initial stats received") info
       :: take 99 (metrics w))
    (set_stats (spread (stats w) data) w)).
Proof.
  intros Hp. unfold on_initial_stats.
  rewrite bind_unfold, (run_JSON_parse_ok _ _ _ Hp). reflexivity.
Qed.

(** A listener that parses its payload first throws on text that is not
    JSON, before it has assigned anything. *)
Lemma on_initial_stats_unparsed (raw : string) (w : World) :
  JSON.parse raw = None → on_initial_stats raw w = Throw json_error w.
Proof.
  intros Hp. unfold on_initial_stats.
  rewrite bind_unfold, (run_JSON_parse_fail _ _ Hp). reflexivity.
Qed.

Lemma on_message_unparsed (raw : string) (w : World) :
  JSON.parse raw = None → on_message raw w = Throw json_error w.
Proof.
  intros Hp. unfold on_message.
  rewrite bind_unfold, (run_JSON_parse_fail _ _ Hp). reflexivity.
Qed.

(** The [message] listener on a payload that parses: it throws before
    assigning anything (reading a field of [null], or writing out a
    [metric] or [value] that has no string form), or completes in
    [after_message]. *)
Lemma on_message_parsed (raw : string) (data : Value) (w : World) :
  JSON.parse raw = Some data →
  (∃ e, get_prop data "metric" = inl e ∧ on_message raw w = Throw e w) ∨
  (∃ metric value,
     get_prop data "metric" = inr metric ∧
     get_prop data "value" = inr value ∧
     truthy metric = true ∧
     stringifies metric && stringifies value = false ∧
     on_message raw w = Throw primitive_error w) ∨
  (∃ metric value,
     get_prop data "metric" = inr metric ∧
     get_prop data "value" = inr value ∧
     (truthy metric = true → stringifies metric && stringifies value = true) ∧
     on_message raw w = Return () (after_message data metric value w)).
Proof.
  intros Hp. unfold on_message.
  rewrite bind_unfold, (run_JSON_parse_ok _ _ _ Hp).
  destruct (get_prop data "metric") as [e|metric] eqn:Hm.
  { left. eauto. }
  destruct (get_prop data "value") as [e|value] eqn:Hv.
  { destruct data; simplify_eq/=. }
  destruct (get_prop data "cache_hit_rate") as [e|chr] eqn:Hc.
  { destruct data; simplify_eq/=. }
  right. unfold after_message, has_field. rewrite Hc.
  exec. destruct (truthy metric) eqn:Ht.
  - destruct (stringifies metric) eqn:Hsm; exec.
    2:{ left. exists metric, value. by rewrite Hsm. }
    destruct (stringifies value) eqn:Hsv; exec.
    2:{ left. exists metric, value. by rewrite Hsm, Hsv. }
    right. exists metric, value. rewrite Ht, Hsm, Hsv. by destruct chr.
  - right. exists metric, value. rewrite Ht. by destruct chr.
Qed.

Lemma step_received (w : World) (h : nat) (name raw : string) (handler : string → M unit) :
  ready h w = Some OPEN →
  listener name = Some handler →
  step (Received h name raw) w = run (handler raw) w.
Proof. intros Hr Hl. unfold step. by rewrite Hr, Hl. Qed.

(** The two names the page handles without a listener of its own: an
    event the server names [open] or [error] runs [onopen] or [onerror]. *)
Lemma step_received_open (w : World) (h : nat) (raw : string) :
  ready h w = Some OPEN →
  step (Received h "open" raw) w = (opened_world w, None).
Proof. intros Hr. unfold step. rewrite Hr. reflexivity. Qed.

Lemma step_received_error (w : World) (h held : nat) (raw : string) :
  ready h w = Some OPEN →
  eventSource w = Some held →
  step (Received h "error" raw) w = (errored_world held w, None).
Proof.
  intros Hr Hheld. unfold step. rewrite Hr. cbn [listener String.eqb Ascii.eqb Bool.eqb].
  unfold run, onerror, close_current, EventSource_close, setTimeout_connectSSE.
  exec. cbn [eventSource set_metrics set_connected]. rewrite Hheld. reflexivity.
Qed.

(** Under any other name a frame does not touch the connection: whatever
    a listener does, it leaves [connected], [eventSource], the sources and
    the timers as they were. *)
Lemma received_keeps_connection (w : World) (h : nat) (name raw : string) :
  name ≠ "open" → name ≠ "error" →
  let w' := (step (Received h name raw) w).1 in
  connected w' = connected w ∧ eventSource w' = eventSource w ∧
  sources w' = sources w ∧ timers w' = timers w.
Proof.
  intros Hopen Herror.
  unfold step. destruct (ready h w) as [[]|]; try done.
  unfold listener.
  destruct (String.eqb_spec name "initial_stats") as [->|_].
  { destruct (JSON.parse raw) as [data|] eqn:Hp; unfold run.
    + by rewrite (on_initial_stats_parsed _ _ _ Hp).
    + by rewrite (on_initial_stats_unparsed _ _ Hp). }
  destruct (String.eqb_spec name "message") as [->|_].
  { destruct (JSON.parse raw) as [data|] eqn:Hp; unfold run.
    + destruct (on_message_parsed raw data w Hp)
        as [(e & _ & ->)|[(m & v & _ & _ & _ & _ & ->)|(m & v & _ & _ & _ & ->)]];
        try done.
      unfold after_message. by repeat case_match.
    + by rewrite (on_message_unparsed _ _ Hp). }
  destruct (String.eqb_spec name "heartbeat") as [->|_]; [done|].
  destruct (String.eqb_spec name "open") as [->|_]; [done|].
  destruct (String.eqb_spec name "error") as [->|_]; done.
Qed.

(** A frame reaches the page only from an open source; and where the page
    holds no source, [onerror] throws at its [close], having cleared
    [connected] and logged. *)
Lemma step_received_unready (w : World) (h : nat) (name raw : string) :
  ready h w ≠ Some OPEN → step (Received h name raw) w = (w, None).
Proof. intros Hr. unfold step. by destruct (ready h w) as [[]|]. Qed.

Lemma step_received_error_unheld (w : World) (h : nat) (raw : string) :
  ready h w = Some OPEN →
  eventSource w = None →
  step (Received h "error" raw) w
  = (set_metrics (lost_entry w :: take 99 (metrics w)) (set_connected false w),
     Some null_error).
Proof.
  intros Hr Hheld. unfold step. rewrite Hr. cbn [listener String.eqb Ascii.eqb Bool.eqb].
  unfold run, onerror, close_current, EventSource_close, setTimeout_connectSSE.
  exec. cbn [eventSource set_metrics set_connected]. rewrite Hheld. reflexivity.
Qed.

(** No frame, under any name, changes the page's handle or the number of
    sources. *)
Lemma received_keeps_handle (w : World) (h : nat) (name raw : string) :
  let w' := (step (Received h name raw) w).1 in
  eventSource w' = eventSource w ∧ length (sources w') = length (sources w).
Proof.
  destruct (decide (ready h w = Some OPEN)) as [Hr|Hr];
    [|by rewrite (step_received_unready _ _ _ _ Hr)].
  destruct (String.eqb_spec name "open") as [->|Hopen];
    [by rewrite (step_received_open _ _ _ Hr)|].
  destruct (String.eqb_spec name "error") as [->|Herror].
  - destruct (eventSource w) as [held|] eqn:Hheld.
    + rewrite (step_received_error _ _ held _ Hr Hheld). cbv zeta.
      unfold errored_world.
      cbn [fst eventSource sources set_timers set_sources set_metrics set_connected].
      by rewrite length_alter.
    + rewrite (step_received_error_unheld _ _ _ Hr Hheld). cbv zeta.
      cbn [fst eventSource sources set_metrics set_connected]. done.
  - destruct (received_keeps_connection w h name raw Hopen Herror) as (_ & He & Hs & _).
    cbv zeta in *. by rewrite He, Hs.
Qed.

(** C1, as the page has it.  There is no decoding step and no malformed
    marker: on text that is not JSON the [initial_stats] and [message]
    listeners throw the SyntaxError of [JSON.parse] to the browser that
    dispatched the event, before assigning anything, so the world after the
    frame is the world before it (no log entry, stats untouched).  A frame
    under any name but [open] and [error], well-formed or not, leaves
    [connected], [eventSource], the sources and the timers as they were.
    A frame the server names [error] is handled by [onerror] as a lost
    connection: [connected] becomes false, one [error] entry is logged,
    the source the page holds is closed and a reconnect is set for 3000 ms
    later.  A frame the server names [open] is handled by [onopen]:
    [connected] becomes true and one [success] entry is logged. *)
Theorem unparsable_frame_throws_changing_nothing
    (w : World) (h : nat) (name raw : string) :
  (ready h w = Some OPEN →
   name = "initial_stats" ∨ name = "message" →
   JSON.parse raw = None →
   step (Received h name raw) w = (w, Some json_error)) ∧
  (name ≠ "open" → name ≠ "error" →
   let w' := (step (Received h name raw) w).1 in
   connected w' = connected w ∧ eventSource w' = eventSource w ∧
   sources w' = sources w ∧ timers w' = timers w) ∧
  (ready h w = Some OPEN →
   ∀ held, eventSource w = Some held →
   step (Received h "error" raw) w = (errored_world held w, None) ∧
   connected (errored_world held w) = false ∧
   (is_Some (sources w !! held) → ready held (errored_world held w) = Some CLOSED) ∧
   timers (errored_world held w) = timers w ++ [mkTimer (clock w) 3000] ∧
   metrics (errored_world held w) = lost_entry w :: take 99 (metrics w)) ∧
  (ready h w = Some OPEN →
   step (Received h "open" raw) w = (opened_world w, None) ∧
   connected (opened_world w) = true ∧
   metrics (opened_world w) = opened_entry w :: take 99 (metrics w)).
Proof.
  split; [|split; [apply received_keeps_connection|split]].
  - intros Hr [->| ->] Hp.
    + rewrite (step_received w h "initial_stats" raw on_initial_stats Hr eq_refl).
      unfold run. by rewrite (on_initial_stats_unparsed _ _ Hp).
    + rewrite (step_received w h "message" raw on_message Hr eq_refl).
      unfold run. by rewrite (on_message_unparsed _ _ Hp).
  - intros Hr held Hheld. split; [by apply step_received_error|].
    repeat split. intros [es Hes]. unfold ready, errored_world.
    cbn [sources set_timers set_sources]. by rewrite list_lookup_alter_eq, Hes.
  - intros Hr. split; [by apply step_received_open|]. done.
Qed.

Lemma unparsable_frame_throws_changing_nothing_witness :
  ready 0 page1 = Some OPEN ∧
  JSON.parse "not json" = None ∧
  step (Received 0 "message" "not json") page1 = (page1, Some json_error) ∧
  eventSource page1 = Some 0 ∧
  (step (Received 0 "error" "down") page1).2 = None ∧
  connected (step (Received 0 "error" "down") page1).1 = false ∧
  ready 0 (step (Received 0 "error" "down") page1).1 = Some CLOSED ∧
  length (timers (step (Received 0 "error" "down") page1).1) = 1%nat.
Proof.
  split; [reflexivity|]. split; [reflexivity|].
  split.
  { apply (unparsable_frame_throws_changing_nothing page1 0 "message" "not json");
      [reflexivity | right; reflexivity | reflexivity]. }
  split; [reflexivity|].
  destruct (unparsable_frame_throws_changing_nothing page1 0 "error" "down")
    as (_ & _ & Herror & _).
  destruct (Herror eq_refl 0 eq_refl) as (-> & Hc & Hclosed & Ht & _).
  cbn [fst snd]. split; [reflexivity|]. split; [exact Hc|].
  split; [apply Hclosed; by eexists|]. rewrite Ht. reflexivity.
Defined.

(** C1 as claimed fails at the frame [not json] on the open source: the
    listener throws, and the log gets no entry for the frame. *)
Lemma frame_not_json_throws :
  ready 0 page1 = Some OPEN ∧
  (step (Received 0 "message" "not json") page1).2 = Some json_error ∧
  metrics (step (Received 0 "message" "not json") page1).1 = metrics page1.
Proof. repeat split; reflexivity. Qed.

(** C4, as the page has it.  For a [message] event on an open source whose
    payload parses and whose listener completes: the payload is merged into
    the stats, all of its keys, exactly when it has a [cache_hit_rate]
    field, and not at all when it carries other stats fields only; one
    [info] entry is added to the log exactly when [data.metric] is truthy,
    with or without a [value]; one event can do both.  (A listener that
    completes was given a payload other than [null] whose [metric], when
    truthy, and [value] have string forms.) *)
Theorem message_merges_on_cache_hit_rate_logs_on_metric
    (w : World) (h : nat) (raw : string) (data : Value) :
  ready h w = Some OPEN →
  JSON.parse raw = Some data →
  (step (Received h "message" raw) w).2 = None →
  ∃ metric value,
    get_prop data "metric" = inr metric ∧
    get_prop data "value" = inr value ∧
    (truthy metric = true → stringifies metric && stringifies value = true) ∧
    let w' := (step (Received h "message" raw) w).1 in
    stats w' =
      (if has_field data "cache_hit_rate" then spread (stats w) data else stats w) ∧
    metrics w' =
      (if truthy metric
       then mkLogEntry (toLocaleTimeString w (clock w)) (Template metric value) info
              :: take 99 (metrics w)
       else metrics w).
Proof.
  intros Hr Hp. rewrite (step_received w h "message" raw on_message Hr eq_refl).
  unfold run.
  destruct (on_message_parsed raw data w Hp)
    as [(e & _ & ->)|[(m & v & _ & _ & _ & _ & ->)|(m & v & Hm & Hv & Hs & ->)]];
    [done|done|].
  intros _. exists m, v. repeat split; try done.
  - unfold after_message. by repeat case_match.
  - unfold after_message. by repeat case_match.
Qed.

Lemma message_merges_on_cache_hit_rate_logs_on_metric_witness :
  ready 0 page1 = Some OPEN ∧
  JSON.parse pair_text =
    Some (Obj [("metric", Str "hits"); ("value", Num (mkNumber 7 0));
               ("cache_hit_rate", Num (mkNumber 9 (-1)))]) ∧
  ∃ metric value : Value,
    let w' := (step (Received 0 "message" pair_text) page1).1 in
    stats w' !! "cache_hit_rate" = Some (Num (mkNumber 9 (-1))) ∧
    head (metrics w') = Some (mkLogEntry "0" (Template metric value) info).
Proof.
  split; [reflexivity|]. split; [reflexivity|].
  destruct (message_merges_on_cache_hit_rate_logs_on_metric page1 0 pair_text
              _ eq_refl eq_refl eq_refl)
    as (metric & value & Hm & Hv & _ & Hstats & Hlog).
  exists metric, value. cbv zeta. rewrite Hstats, Hlog.
  injection Hm as <-. split; reflexivity.
Defined.

(** C4 as claimed fails at the payload [{total_keys: 5}]: it carries a
    recognised stats field, and the event leaves the world as it was. *)
Lemma total_keys_alone_is_not_merged :
  ready 0 page1 = Some OPEN ∧
  JSON.parse total_keys_text = Some (Obj [("total_keys", Num (mkNumber 5 0))]) ∧
  step (Received 0 "message" total_keys_text) page1 = (page1, None) ∧
  stats page1 !! "total_keys" = Some zero.
Proof. repeat split; reflexivity. Qed.

(** ** The stats snapshot *)

Lemma baseline_parses :
  JSON.parse baseline_text =
  Some (Obj [("total_keys", Num (mkNumber 10 0)); ("cache_hit_rate", Num (mkNumber 5 (-1)))]).
Proof. reflexivity. Qed.

Lemma delta_parses :
  JSON.parse delta_text = Some (Obj [("cache_hit_rate", Num (mkNumber 9 (-1)))]).
Proof. reflexivity. Qed.

(** The stats after a [message] listener ran on a payload that parses:
    merged when the listener completed on a payload with a
    [cache_hit_rate], as they were otherwise. *)
Lemma on_message_stats (w : World) (raw : string) (data : Value) :
  JSON.parse raw = Some data →
  let w' := (run (on_message raw) w).1 in
  ((run (on_message raw) w).2 = None →
   has_field data "cache_hit_rate" = true →
   stats w' = spread (stats w) data) ∧
  (stats w' = stats w ∨ stats w' = spread (stats w) data).
Proof.
  intros Hp. unfold run. cbv zeta.
  destruct (on_message_parsed raw data w Hp)
    as [(e & _ & ->)|[(m & v & _ & _ & _ & _ & ->)|(m & v & _ & _ & _ & ->)]];
    [split; [done|by left]..|].
  unfold after_message. cbn [fst snd].
  destruct (has_field data "cache_hit_rate").
  - split; [intros _ _|right]; by repeat case_match.
  - split; [done|left]; by repeat case_match.
Qed.

(** C6.  The merge is shallow.  After an [initial_stats] payload, and after
    a [message] payload that was merged, a field the payload has holds the
    payload's value and every other field holds the value it had.  From any
    stats, the baseline [{total_keys: 10, cache_hit_rate: 0.5}] followed by
    the delta [{cache_hit_rate: 0.9}] gives [total_keys = 10],
    [cache_hit_rate = 0.9] and every other field as it was. *)
Theorem stats_merge_is_shallow (w : World) :
  (∀ raw data k,
     JSON.parse raw = Some data →
     let w' := (run (on_initial_stats raw) w).1 in
     stats w' !! k =
       match assoc_last k (own_props data) with
       | Some v => Some v
       | None => stats w !! k
       end) ∧
  (∀ raw data k,
     JSON.parse raw = Some data →
     let w' := (run (on_message raw) w).1 in
     (assoc_last k (own_props data) = None → stats w' !! k = stats w !! k) ∧
     ((run (on_message raw) w).2 = None →
      has_field data "cache_hit_rate" = true →
      stats w' !! k =
        match assoc_last k (own_props data) with
        | Some v => Some v
        | None => stats w !! k
        end)) ∧
  (let w1 := (run (on_initial_stats baseline_text) w).1 in
   let w2 := (run (on_message delta_text) w1).1 in
   stats w2 !! "total_keys" = Some (Num (mkNumber 10 0)) ∧
   stats w2 !! "cache_hit_rate" = Some (Num (mkNumber 9 (-1))) ∧
   ∀ k, k ≠ "total_keys" → k ≠ "cache_hit_rate" → stats w2 !! k = stats w !! k).
Proof.
  split; [|split].
  - intros raw data k Hp. unfold run. cbv zeta.
    rewrite (on_initial_stats_parsed _ _ _ Hp). simpl. apply spread_lookup.
  - intros raw data k Hp. cbv zeta.
    destruct (on_message_stats w raw data Hp) as [Hmerged [Hsame|Hspread]].
    + split; [by rewrite Hsame|].
      intros Hok Hfield. rewrite (Hmerged Hok Hfield). apply spread_lookup.
    + rewrite Hspread, spread_lookup. split; [by intros ->|done].
  - cbv zeta. unfold run.
    rewrite (on_initial_stats_parsed _ _ _ baseline_parses). cbn [fst].
    match goal with |- context [on_message delta_text ?w1] =>
      destruct (on_message_parsed delta_text _ w1 delta_parses)
        as [(e & He & _)|[(m & v & Hm & _ & Ht & _)|(m & v & Hm & Hv & _ & ->)]]
    end.
    + discriminate He.
    + injection Hm as <-. discriminate Ht.
    + injection Hm as <-. injection Hv as <-. cbn [fst].
      unfold after_message. cbn [truthy].
      match goal with |- context [has_field ?d ?k] =>
        change (has_field d k) with true
      end.
      cbn [stats set_stats set_metrics].
      split; [|split].
      * rewrite !spread_lookup. reflexivity.
      * rewrite !spread_lookup. reflexivity.
      * intros k Hk1 Hk2. rewrite !spread_lookup. cbn [own_props assoc_last].
        destruct (String.eqb_spec "cache_hit_rate" k) as [<-|_]; [done|].
        destruct (String.eqb_spec "total_keys" k) as [<-|_]; [done|].
        done.
Qed.

Lemma stats_merge_is_shallow_witness :
  JSON.parse baseline_text =
    Some (Obj [("total_keys", Num (mkNumber 10 0)); ("cache_hit_rate", Num (mkNumber 5 (-1)))]) ∧
  JSON.parse delta_text = Some (Obj [("cache_hit_rate", Num (mkNumber 9 (-1)))]) ∧
  (run (on_message delta_text) page1).2 = None ∧
  stats (run (on_initial_stats baseline_text) page1).1 !! "total_keys"
    = Some (Num (mkNumber 10 0)) ∧
  stats (run (on_initial_stats baseline_text) page1).1 !! "requests_per_second"
    = Some zero ∧
  stats (run (on_message delta_text) page1).1 !! "cache_hit_rate"
    = Some (Num (mkNumber 9 (-1))) ∧
  stats (run (on_message delta_text) page1).1 !! "total_keys" = Some zero.
Proof.
  split; [reflexivity|]. split; [reflexivity|]. split; [reflexivity|].
  destruct (stats_merge_is_shallow page1) as (Hinit & Hdelta & _).
  destruct (Hdelta delta_text _ "cache_hit_rate" delta_parses) as [_ Hpresent].
  destruct (Hdelta delta_text _ "total_keys" delta_parses) as [Habsent _].
  split; [|split; [|split]].
  - rewrite (Hinit baseline_text _ "total_keys" baseline_parses). reflexivity.
  - rewrite (Hinit baseline_text _ "requests_per_second" baseline_parses). reflexivity.
  - rewrite (Hpresent eq_refl eq_refl). reflexivity.
  - rewrite (Habsent eq_refl). reflexivity.
Defined.

(** The value a property list gives a key is the one written last. *)
Lemma assoc_last_written_last
    (k : string) (v : Value) (before after : list (string * Value)) :
  k ∉ after.*1 → assoc_last k (before ++ (k, v) :: after) = Some v.
Proof.
  intros Hafter.
  assert (Hnone : assoc_last k after = None).
  { destruct (assoc_last k after) as [x|] eqn:Hx; [|done].
    destruct Hafter. apply assoc_last_is_Some. by rewrite Hx. }
  induction before as [|[k' v'] before IH]; cbn [app assoc_last].
  - rewrite Hnone. by destruct (String.eqb_spec k k).
  - by rewrite IH.
Qed.

(** C9.  Every key of a payload enters the stats, whether or not it is one
    of the four the page starts with.  Take a payload that is a JSON
    object in which the key [k] is written with the value [v], and not
    written again after it: after an [initial_stats] event, and after a
    [message] event that was merged, the stats hold [v] under [k],
    whatever [k] is. *)
Theorem payload_keys_all_enter_stats
    (w : World) (raw : string) (before after : list (string * Value))
    (k : string) (v : Value) :
  JSON.parse raw = Some (Obj (before ++ (k, v) :: after)) →
  k ∉ after.*1 →
  stats (run (on_initial_stats raw) w).1 !! k = Some v ∧
  ((run (on_message raw) w).2 = None →
   has_field (Obj (before ++ (k, v) :: after)) "cache_hit_rate" = true →
   stats (run (on_message raw) w).1 !! k = Some v).
Proof.
  intros Hp Hafter.
  pose proof (assoc_last_written_last k v before after Hafter) as Hv.
  split.
  - unfold run. rewrite (on_initial_stats_parsed _ _ _ Hp).
    cbn [fst stats set_metrics set_stats].
    rewrite spread_lookup. cbn [own_props]. by rewrite Hv.
  - intros Hok Hfield.
    destruct (on_message_stats w raw _ Hp) as [Hmerged _].
    rewrite (Hmerged Hok Hfield), spread_lookup. cbn [own_props]. by rewrite Hv.
Qed.

Lemma payload_keys_all_enter_stats_witness :
  JSON.parse extra_text =
    Some (Obj ([("cache_hit_rate", Num (mkNumber 9 (-1)))] ++ [("uptime", Bool true)])) ∧
  initial_stats !! "uptime" = None ∧
  stats (run (on_initial_stats extra_text) page1).1 !! "uptime" = Some (Bool true) ∧
  (run (on_message extra_text) page1).2 = None ∧
  stats (run (on_message extra_text) page1).1 !! "uptime" = Some (Bool true).
Proof.
  split; [reflexivity|]. split; [reflexivity|].
  destruct (payload_keys_all_enter_stats page1 extra_text
              [("cache_hit_rate", Num (mkNumber 9 (-1)))] [] "uptime" (Bool true) eq_refl)
    as (Hinit & Hmsg).
  - by intros ?%elem_of_nil.
  - split; [exact Hinit|]. split; [reflexivity|]. apply Hmsg; reflexivity.
Defined.

(** ** Opening the stream *)

Lemma createEventSource_run (endpoint : string) (w : World) :
  createEventSource endpoint w =
  new_EventSource
    (API_BASE_URL w +:+ endpoint +:+ "?token=" +:+ token_text (localStorage w !! "token")) w.
Proof. reflexivity. Qed.

Lemma connectSSE_accepted (w : World) :
  url_error w (stream_url w) = None →
  connectSSE w =
  Return () (set_eventSource (Some (length (sources w)))
               (set_sources (sources w ++ [mkEventSource (stream_url w) CONNECTING]) w)).
Proof.
  intros Hu. unfold connectSSE, try_catch. rewrite bind_unfold, createEventSource_run.
  unfold new_EventSource. fold (stream_url w). by rewrite Hu.
Qed.

Lemma connectSSE_rejected (w : World) (msg : string) :
  url_error w (stream_url w) = Some msg →
  connectSSE w =
  Return () (set_metrics
    (mkLogEntry (toLocaleTimeString w (clock w)) (Text ("Failed to connect: " +:+ msg)) error
       :: take 99 (metrics w)) w).
Proof.
  intros Hu. unfold connectSSE, try_catch. rewrite bind_unfold, createEventSource_run.
  unfold new_EventSource. fold (stream_url w). by rewrite Hu.
Qed.

(** C10.  With no token in storage the address asked for ends in
    [?token=null]: [createEventSource] passes it to [new EventSource]
    without looking at the token, and when the browser takes the address
    the source is made and starts connecting; [connectSSE] then completes
    with that source as the page's, and logs no failure. *)
Theorem missing_token_connects_with_token_null (w : World) (endpoint : string) :
  localStorage w !! "token" = None →
  let u := API_BASE_URL w +:+ endpoint +:+ "?token=null" in
  createEventSource endpoint w = new_EventSource u w ∧
  (url_error w u = None →
   createEventSource endpoint w =
     Return (length (sources w))
            (set_sources (sources w ++ [mkEventSource u CONNECTING]) w)) ∧
  (endpoint = "/streaming/metrics" →
   url_error w u = None →
   let w' := (run connectSSE w).1 in
   (run connectSSE w).2 = None ∧
   eventSource w' = Some (length (sources w)) ∧
   sources w' !! length (sources w) = Some (mkEventSource u CONNECTING) ∧
   metrics w' = metrics w).
Proof.
  intros Hnull. cbv zeta.
  assert (Hrun : createEventSource endpoint w =
                 new_EventSource (API_BASE_URL w +:+ endpoint +:+ "?token=null") w).
  { rewrite createEventSource_run, Hnull. reflexivity. }
  split; [exact Hrun|]. split.
  - intros Hu. rewrite Hrun. unfold new_EventSource. by rewrite Hu.
  - intros -> Hu. unfold run.
    rewrite connectSSE_accepted by (unfold stream_url; rewrite Hnull; exact Hu).
    cbn [fst snd eventSource sources metrics set_eventSource set_sources].
    split; [done|]. split; [done|]. split; [|done].
    rewrite lookup_app_r by done. rewrite Nat.sub_diag.
    unfold stream_url. rewrite Hnull. reflexivity.
Qed.

Lemma missing_token_connects_with_token_null_witness :
  localStorage page0 !! "token" = None ∧
  url_error page0 "http://localhost:8000/api/v1/streaming/metrics?token=null" = None ∧
  sources (run connectSSE page0).1 !! 0 =
    Some (mkEventSource "http://localhost:8000/api/v1/streaming/metrics?token=null" CONNECTING).
Proof.
  split; [reflexivity|]. split; [reflexivity|].
  destruct (missing_token_connects_with_token_null page0 "/streaming/metrics" eq_refl)
    as (_ & _ & H).
  destruct (H eq_refl eq_refl) as (_ & _ & Hsource & _). exact Hsource.
Defined.

(** C3, as the page has it.  [connectSSE] has no guard: whenever the
    browser takes the address, a call makes one more source, leaves the
    earlier ones as they were and makes the new one the page's.  What keeps
    a user from connecting twice is the Connect button, which is rendered
    only while [connected] is false: a click does nothing once connected,
    and calls [connectSSE] while the first source is still connecting. *)
Theorem connect_always_opens_a_transport (w : World) :
  url_error w (stream_url w) = None →
  let w' := (run connectSSE w).1 in
  eventSource w' = Some (length (sources w)) ∧
  sources w' = sources w ++ [mkEventSource (stream_url w) CONNECTING] ∧
  live w' = live w ++ [mkEventSource (stream_url w) CONNECTING] ∧
  (connected w = true → step ClickConnect w = (w, None)) ∧
  (connected w = false → step ClickConnect w = run connectSSE w).
Proof.
  intros Hu. cbv zeta.
  assert (Hclick : (connected w = true → step ClickConnect w = (w, None)) ∧
                   (connected w = false → step ClickConnect w = run connectSSE w)).
  { unfold step. split; by intros ->. }
  unfold run at 1 2 3. rewrite (connectSSE_accepted w Hu).
  cbn [fst]. split; [done|]. split; [done|]. split; [|exact Hclick].
  unfold live. cbn [sources set_eventSource set_sources].
  by rewrite filter_app.
Qed.

Lemma connect_always_opens_a_transport_witness :
  url_error (steps [Mount] page0) (stream_url (steps [Mount] page0)) = None ∧
  connected (steps [Mount] page0) = false ∧
  length (live (steps [Mount] page0)) = 1 ∧
  length (live (step ClickConnect (steps [Mount] page0)).1) = 2.
Proof.
  split; [reflexivity|]. split; [reflexivity|]. split; [reflexivity|].
  destruct (connect_always_opens_a_transport (steps [Mount] page0) eq_refl)
    as (_ & _ & Hlive & _ & Hclick).
  rewrite (Hclick eq_refl), Hlive. reflexivity.
Defined.

(** C3 as claimed fails right after mounting: the first source is still
    connecting, the Connect button is there, and a click leaves two live
    sources. *)
Lemma connect_while_connecting_opens_second_transport :
  connectionState (steps [Mount] page0) = Connecting ∧
  length (live (steps [Mount] page0)) = 1 ∧
  length (live (steps [Mount; ClickConnect] page0)) = 2.
Proof. repeat split; reflexivity. Qed.

(** ** Losing the connection *)

Lemma step_failed (w : World) (h held : nat) (fatal : bool) :
  eventSource w = Some held →
  ready h w = Some OPEN ∨ ready h w = Some CONNECTING →
  step (Failed h fatal) w = (failed_world h held fatal w, None).
Proof.
  intros Hheld Hr. unfold step.
  destruct Hr as [-> | ->];
    unfold run, onerror, close_current, EventSource_close, setTimeout_connectSSE;
    exec; cbn [eventSource set_metrics set_connected set_ready set_sources];
    rewrite Hheld; reflexivity.
Qed.

(** The source the page holds is closed once [onerror] has run. *)
Lemma failed_world_ready (w : World) (h held : nat) (fatal : bool) :
  is_Some (sources w !! held) →
  ready held (failed_world h held fatal w) = Some CLOSED.
Proof.
  intros [es Hes]. unfold ready, failed_world. cbn [sources set_timers set_sources].
  rewrite list_lookup_alter_eq, list_lookup_alter.
  case_decide; subst; by rewrite Hes.
Qed.

Lemma delete_last_added {A} (l : list A) (x : A) : delete (length l) (l ++ [x]) = l.
Proof. induction l as [|y l IH]; simpl; [done|]. by rewrite IH. Qed.

(** The timer [onerror] set fires once 3000 ms have passed, and then
    [connectSSE] runs. *)
Lemma timeout_after_failure (w : World) (h held : nat) (fatal : bool) (dt : N) :
  let w1 := failed_world h held fatal w in
  let w2 := (step (Tick dt) w1).1 in
  step (TimerFired (length (timers w))) w2 =
    if (3000 <=? dt)%N
    then run connectSSE (set_timers (timers w) w2)
    else (w2, None).
Proof.
  cbv zeta. unfold step at 1.
  cbn [timers failed_world set_timers set_clock fst step].
  rewrite lookup_app_r by done. rewrite Nat.sub_diag. cbn [lookup list_lookup].
  unfold due. cbn [set_at delay clock set_clock set_timers set_sources set_metrics set_connected].
  rewrite delete_last_added.
  change (clock (failed_world h held fatal w)) with (clock w).
  destruct (N.leb_spec 3000 dt); destruct (N.leb_spec (clock w + 3000) (clock w + dt));
    try lia; reflexivity.
Qed.

Lemma connectionState_Connecting (w : World) (k : nat) :
  connected w = false → eventSource w = Some k → ready k w = Some CONNECTING →
  connectionState w = Connecting.
Proof.
  intros Hc He Hr. unfold connectionState. rewrite Hc, He. simpl. by rewrite Hr.
Qed.

Lemma failure_then_timeout (w : World) (h held : nat) (fatal : bool) (dt : N) :
  eventSource w = Some held →
  ready h w = Some OPEN ∨ ready h w = Some CONNECTING →
  url_error w (stream_url w) = None →
  (3000 ≤ dt)%N →
  steps [Failed h fatal; Tick dt; TimerFired (length (timers w))] w
  = retried_world h held fatal dt w.
Proof.
  intros Hheld Hr Hu Hdt. unfold steps. cbn [foldl].
  rewrite (step_failed w h held fatal Hheld Hr). cbn [fst].
  rewrite (timeout_after_failure w h held fatal dt).
  destruct (N.leb_spec 3000 dt); [|lia].
  unfold run. rewrite connectSSE_accepted by exact Hu.
  cbn [fst]. unfold retried_world.
  cbn [step fst sources set_timers set_clock].
  unfold failed_world at 1.
  cbn [sources set_timers set_sources set_metrics set_connected].
  rewrite !length_alter. reflexivity.
Qed.

Lemma retried_world_facts (w : World) (h held : nat) (fatal : bool) (dt : N) :
  let w2 := retried_world h held fatal dt w in
  connected w2 = false ∧
  eventSource w2 = Some (length (sources w)) ∧
  ready (length (sources w)) w2 = Some CONNECTING ∧
  length (sources w2) = S (length (sources w)) ∧
  timers w2 = timers w ∧
  metrics w2 = lost_entry w :: take 99 (metrics w) ∧
  stats w2 = stats w ∧
  url_error w2 (stream_url w2) = url_error w (stream_url w).
Proof.
  cbv zeta. unfold retried_world, failed_world, ready.
  cbn [connected eventSource sources timers metrics stats set_eventSource
       set_sources set_timers set_clock set_metrics set_connected].
  repeat split.
  - rewrite lookup_app_r by (rewrite !length_alter; done).
    rewrite !length_alter, Nat.sub_diag. reflexivity.
  - rewrite length_app, !length_alter. simpl. lia.
Qed.

(** While the browser takes the address, a page that is connecting is
    connecting again after any number of failed attempts, each of which
    made one more source and left no timer behind. *)
Lemma retry_rounds_facts (n : nat) (w : World) (h : nat) :
  connected w = false →
  eventSource w = Some h →
  ready h w = Some CONNECTING →
  url_error w (stream_url w) = None →
  length (sources (retry_rounds n w)) = length (sources w) + n ∧
  timers (retry_rounds n w) = timers w ∧
  connectionState (retry_rounds n w) = Connecting.
Proof.
  revert w h. induction n as [|n IH]; intros w h Hc Hheld Hr Hu.
  - simpl. split; [lia|]. split; [done|]. by apply (connectionState_Connecting w h).
  - cbn [retry_rounds]. unfold retry_round. rewrite Hheld.
    change (default 0 (Some h)) with h.
    rewrite (failure_then_timeout w h h false 3000 Hheld (or_intror Hr) Hu) by lia.
    destruct (retried_world_facts w h h false 3000)
      as (Hc2 & He2 & Hr2 & Hlen & Ht & _ & _ & Hu2).
    destruct (IH _ _ Hc2 He2 Hr2) as (IHlen & IHt & IHc).
    { by rewrite Hu2. }
    rewrite IHlen, IHt, Hlen, Ht. split; [lia|]. done.
Qed.

(** ** Disconnecting *)

Lemma disconnect_run (w : World) (h : nat) :
  eventSource w = Some h →
  disconnect w =
  Return () (set_metrics (disconnected_entry w :: take 99 (metrics w))
               (set_connected false
                  (set_sources (alter close_source h (sources w)) w))).
Proof.
  intros Hheld. unfold disconnect, EventSource_close. exec. by rewrite Hheld.
Qed.

Lemma disconnect_without_source (w : World) :
  eventSource w = None → disconnect w = Return () w.
Proof. intros Hnone. unfold disconnect. exec. by rewrite Hnone. Qed.

(** ** Worlds the page can be in *)

Lemma connectSSE_well_formed (w : World) :
  well_formed w → well_formed (run connectSSE w).1.
Proof.
  intros Hwf. unfold run.
  destruct (url_error w (stream_url w)) as [msg|] eqn:Hu.
  - by rewrite (connectSSE_rejected w msg Hu).
  - rewrite (connectSSE_accepted w Hu). unfold well_formed.
    cbn [fst eventSource sources set_eventSource set_sources].
    rewrite length_app. simpl. lia.
Qed.

Lemma disconnect_well_formed (w : World) :
  well_formed w → well_formed (run disconnect w).1.
Proof.
  intros Hwf. unfold run. destruct (eventSource w) as [h|] eqn:Hheld.
  - rewrite (disconnect_run w h Hheld). unfold well_formed in *.
    cbn [fst eventSource sources set_metrics set_connected set_sources].
    rewrite Hheld in *. by rewrite length_alter.
  - by rewrite (disconnect_without_source w Hheld).
Qed.

(** A source that is there implies the page holds the last one made. *)
Lemma well_formed_held (w : World) (h : nat) (r : ReadyState) :
  well_formed w → ready h w = Some r →
  ∃ held, eventSource w = Some held ∧ length (sources w) = S held.
Proof.
  unfold well_formed, ready. intros Hwf Hr.
  destruct (eventSource w) as [held|]; [eauto|].
  rewrite Hwf in Hr. discriminate Hr.
Qed.

Lemma step_well_formed (ev : Event) (w : World) :
  well_formed w → well_formed (step ev w).1.
Proof.
  intros Hwf.
  destruct ev as [| | | |h|h name data|h fatal|i|dt]; unfold step.
  - by apply connectSSE_well_formed.
  - by apply disconnect_well_formed.
  - destruct (connected w); [done|]. by apply connectSSE_well_formed.
  - destruct (connected w); [|done]. by apply disconnect_well_formed.
  - destruct (ready h w) as [[]|]; try done.
    unfold well_formed in *. unfold run, onopen. exec.
    cbn [fst eventSource sources set_metrics set_connected set_ready set_sources].
    destruct (eventSource w); [by rewrite length_alter | by rewrite Hwf].
  - destruct (received_keeps_handle w h name data) as (He & Hs).
    unfold step in He, Hs. unfold well_formed in *.
    rewrite He. destruct (eventSource w); [by rewrite Hs|].
    apply length_zero_iff_nil. by rewrite Hs, Hwf.
  - destruct (ready h w) as [r|] eqn:Hr; [|done].
    destruct (well_formed_held w h r Hwf Hr) as (held & Hheld & Hlen).
    assert (Hfailed : well_formed (failed_world h held fatal w)).
    { unfold well_formed, failed_world.
      cbn [eventSource sources set_timers set_sources set_metrics set_connected].
      by rewrite Hheld, !length_alter. }
    pose proof (step_failed w h held fatal Hheld) as Hstep.
    unfold step in Hstep. rewrite Hr in Hstep.
    destruct r; [rewrite Hstep by (by right)|rewrite Hstep by (by left)|]; done.
  - destruct (timers w !! i) as [t|]; [|done].
    destruct (due t w); [|done].
    by apply connectSSE_well_formed.
  - done.
Qed.

Lemma steps_well_formed (evs : list Event) (w : World) :
  well_formed w → well_formed (steps evs w).
Proof.
  revert w. induction evs as [|ev evs IH]; intros w Hwf; [done|].
  unfold steps. cbn [foldl]. apply IH. by apply step_well_formed.
Qed.

Lemma reachable_well_formed (w : World) : reachable w → well_formed w.
Proof.
  intros (storage & api_url & url_err & fmt & evs & ->).
  by apply steps_well_formed.
Qed.

(** ** Retrying *)

(** C7.  In any world the page can be in, when a source that is open or
    still connecting fails, the handler completes, adds exactly one [error]
    entry to the log, sets [connected] to false, closes the source the page
    holds and sets one timer of 3000 ms, whatever happened before: the
    state is ReconnectScheduled.  The timer does nothing before 3000 ms
    have passed; once they have, it calls [connectSSE], which in a browser
    that takes the address makes a new source: the state is Connecting,
    with no click on Connect.  Nothing counts the attempts: after any
    number [n] of further failures, each followed by its timeout, [n] more
    sources have been made and the page is connecting again.  A source
    that [disconnect] has closed no longer reports its failures, so none
    of this follows them. *)
Theorem transport_error_retries_after_3000ms (w : World) (h : nat) (fatal : bool) :
  well_formed w →
  ready h w = Some OPEN ∨ ready h w = Some CONNECTING →
  ∃ held,
    eventSource w = Some held ∧
    let w1 := (step (Failed h fatal) w).1 in
    let i := length (timers w) in
    (step (Failed h fatal) w).2 = None ∧
    metrics w1 = lost_entry w :: take 99 (metrics w) ∧
    stats w1 = stats w ∧
    connected w1 = false ∧
    ready held w1 = Some CLOSED ∧
    timers w1 = timers w ++ [mkTimer (clock w) 3000] ∧
    connectionState w1 = ReconnectScheduled ∧
    (∀ dt, (dt < 3000)%N →
       step (TimerFired i) (step (Tick dt) w1).1 = ((step (Tick dt) w1).1, None)) ∧
    (url_error w (stream_url w) = None →
     ∀ dt, (3000 ≤ dt)%N →
       let w2 := steps [Tick dt; TimerFired i] w1 in
       connectionState w2 = Connecting ∧
       eventSource w2 = Some (length (sources w)) ∧
       ready (length (sources w)) w2 = Some CONNECTING ∧
       timers w2 = timers w ∧
       metrics w2 = metrics w1 ∧
       ∀ n,
         length (sources (retry_rounds n w2)) = length (sources w2) + n ∧
         timers (retry_rounds n w2) = timers w ∧
         connectionState (retry_rounds n w2) = Connecting) ∧
    (let wd := (run disconnect w).1 in
     step (Failed held fatal) wd = (wd, None)).
Proof.
  intros Hwf Hr.
  assert (∃ r, ready h w = Some r) as [r Hr'] by (destruct Hr; eauto).
  destruct (well_formed_held w h r Hwf Hr') as (held & Hheld & Hlen).
  exists held. split; [exact Hheld|]. cbv zeta.
  rewrite (step_failed w h held fatal Hheld Hr). cbn [fst snd].
  assert (Hclosed : ready held (failed_world h held fatal w) = Some CLOSED).
  { apply failed_world_ready, lookup_lt_is_Some. lia. }
  split; [done|]. split; [done|]. split; [done|]. split; [done|].
  split; [exact Hclosed|]. split; [done|]. split; [|split; [|split]].
  - unfold connectionState.
    change (connected (failed_world h held fatal w)) with false.
    change (eventSource (failed_world h held fatal w)) with (eventSource w).
    rewrite Hheld. simpl. rewrite Hclosed.
    change (timers (failed_world h held fatal w)) with (timers w ++ [mkTimer (clock w) 3000]).
    by destruct (timers w).
  - intros dt Hdt. rewrite (timeout_after_failure w h held fatal dt).
    destruct (N.leb_spec 3000 dt); [lia|done].
  - intros Hu dt Hdt.
    assert (Hw2 : steps [Tick dt; TimerFired (length (timers w))] (failed_world h held fatal w)
                  = retried_world h held fatal dt w).
    { rewrite <- (failure_then_timeout w h held fatal dt Hheld Hr Hu Hdt).
      unfold steps. cbn [foldl]. by rewrite (step_failed w h held fatal Hheld Hr). }
    rewrite Hw2.
    destruct (retried_world_facts w h held fatal dt)
      as (Hc & He & Hr2 & _ & Ht & Hm & _ & Hu2).
    split; [by apply (connectionState_Connecting _ (length (sources w)))|].
    split; [done|]. split; [done|]. split; [done|]. split; [done|].
    intros n.
    destruct (retry_rounds_facts n _ (length (sources w)) Hc He Hr2)
      as (Hlenn & Htn & Hcn); [by rewrite Hu2|].
    by rewrite Htn, Ht.
  - unfold run. rewrite (disconnect_run w held Hheld). cbn [fst].
    unfold step, ready. cbn [sources set_metrics set_connected set_sources].
    rewrite list_lookup_alter_eq.
    destruct (lookup_lt_is_Some_2 (sources w) held) as [es ->]; [lia|]. done.
Qed.

Lemma transport_error_retries_after_3000ms_witness :
  well_formed page1 ∧
  ready 0 page1 = Some OPEN ∧
  connected page1 = true ∧
  connectionState (step (Failed 0 false) page1).1 = ReconnectScheduled ∧
  timers (step (Failed 0 false) page1).1 = [mkTimer 0 3000] ∧
  connectionState (steps [Tick 3000; TimerFired 0] (step (Failed 0 false) page1).1) = Connecting ∧
  length (sources (retry_rounds 5
            (steps [Tick 3000; TimerFired 0] (step (Failed 0 false) page1).1))) = 7.
Proof.
  split; [reflexivity|]. split; [reflexivity|]. split; [reflexivity|].
  destruct (transport_error_retries_after_3000ms page1 0 false eq_refl (or_introl eq_refl))
    as (held & _ & _ & _ & _ & _ & _ & Htimers & Hstate & _ & Hretry & _).
  destruct (Hretry eq_refl 3000%N) as (Hconnecting & _ & _ & _ & _ & Hrounds);
    [by vm_compute|].
  destruct (Hrounds 5) as (Hlen & _).
  split; [exact Hstate|]. split; [exact Htimers|]. split; [exact Hconnecting|exact Hlen].
Defined.

(** ** After a disconnect *)

Lemma quiet_ready (w : World) (h : nat) :
  quiet w → ready h w = None ∨ ready h w = Some CLOSED.
Proof.
  intros (_ & _ & Hall). unfold ready.
  destruct (sources w !! h) as [es|] eqn:Hes; [right|by left].
  simpl. f_equal. by apply (Forall_lookup_1 _ _ _ _ Hall Hes).
Qed.

(** In a quiet world a call that nobody prompted changes the clock at
    most. *)
Lemma quiet_step (ev : Event) (w : World) :
  unprompted ev = true →
  quiet w →
  quiet (step ev w).1 ∧
  stats (step ev w).1 = stats w ∧
  metrics (step ev w).1 = metrics w ∧
  eventSource (step ev w).1 = eventSource w ∧
  sources (step ev w).1 = sources w ∧
  (step ev w).2 = None.
Proof.
  intros Hev Hq. pose proof Hq as (Hc & Ht & Hall).
  destruct ev as [| | | |h|h name data|h fatal|i|dt]; try discriminate Hev; unfold step.
  - by rewrite Hc.
  - by destruct (quiet_ready w h Hq) as [-> | ->].
  - by destruct (quiet_ready w h Hq) as [-> | ->].
  - by destruct (quiet_ready w h Hq) as [-> | ->].
  - by rewrite Ht.
  - done.
Qed.

Lemma quiet_steps (evs : list Event) (w : World) :
  forallb unprompted evs = true →
  quiet w →
  stats (steps evs w) = stats w ∧
  metrics (steps evs w) = metrics w ∧
  eventSource (steps evs w) = eventSource w ∧
  sources (steps evs w) = sources w.
Proof.
  revert w. induction evs as [|ev evs IH]; intros w Hevs Hq; [done|].
  cbn [forallb] in Hevs. apply andb_prop in Hevs as [Hev Hevs].
  destruct (quiet_step ev w Hev Hq) as (Hq' & Hs & Hm & He & Hsrc & _).
  unfold steps. cbn [foldl]. fold (steps evs (step ev w).1).
  destruct (IH _ Hevs Hq') as (-> & -> & -> & ->). done.
Qed.

(** C2, as the page has it.  With no source to its name [disconnect] does
    nothing.  Otherwise it closes the source the page holds, sets
    [connected] to false and adds one [warning] entry, and that source
    calls into the page no more.  So when no timer is pending and no other
    source is live, nothing that happens after [disconnect], short of a new
    mount, a click on Connect or another teardown, changes the stats or the
    log. *)
Theorem disconnect_closes_the_held_transport (w : World) :
  (eventSource w = None → run disconnect w = (w, None)) ∧
  ∀ h, eventSource w = Some h →
    let w1 := (run disconnect w).1 in
    (run disconnect w).2 = None ∧
    connected w1 = false ∧
    (is_Some (sources w !! h) → ready h w1 = Some CLOSED) ∧
    metrics w1 = disconnected_entry w :: take 99 (metrics w) ∧
    stats w1 = stats w ∧
    (∀ name data fatal,
       step (Opened h) w1 = (w1, None) ∧
       step (Received h name data) w1 = (w1, None) ∧
       step (Failed h fatal) w1 = (w1, None)) ∧
    (timers w = [] →
     (∀ h' es, sources w !! h' = Some es → h' ≠ h → readyState es = CLOSED) →
     ∀ evs, forallb unprompted evs = true →
       stats (steps evs w1) = stats w1 ∧ metrics (steps evs w1) = metrics w1).
Proof.
  split.
  { intros Hnone. unfold run. by rewrite (disconnect_without_source w Hnone). }
  intros h Hheld. cbv zeta. unfold run. rewrite (disconnect_run w h Hheld). cbn [fst snd].
  set (w1 := set_metrics _ _).
  assert (Hready : ready h w1 = None ∨ ready h w1 = Some CLOSED).
  { unfold ready, w1. cbn [sources set_metrics set_connected set_sources].
    rewrite list_lookup_alter_eq. destruct (sources w !! h); [by right|by left]. }
  split; [done|]. split; [done|]. split; [|split; [done|split; [done|split]]].
  - intros [es Hes]. unfold ready, w1. cbn [sources set_metrics set_connected set_sources].
    by rewrite list_lookup_alter_eq, Hes.
  - intros name data fatal. unfold step.
    by destruct Hready as [-> | ->].
  - intros Ht Hothers evs Hevs.
    assert (Hq : quiet w1).
    { split; [done|]. split; [exact Ht|].
      apply Forall_lookup_2. intros i es.
      unfold w1. cbn [sources set_metrics set_connected set_sources].
      rewrite list_lookup_alter. case_decide as Hi.
      - subst i. destruct (sources w !! h); [|done]. by intros [= <-].
      - intros Hes. by apply (Hothers i). }
    destruct (quiet_steps evs w1 Hevs Hq) as (-> & -> & _). done.
Qed.

Lemma disconnect_closes_the_held_transport_witness :
  eventSource page1 = Some 0 ∧
  timers page1 = [] ∧
  ready 0 (run disconnect page1).1 = Some CLOSED ∧
  metrics (steps [Opened 0; Received 0 "initial_stats" baseline_text; Failed 0 false;
                  Tick 5000; TimerFired 0]
             (run disconnect page1).1)
    = metrics (run disconnect page1).1.
Proof.
  split; [reflexivity|]. split; [reflexivity|].
  destruct (disconnect_closes_the_held_transport page1) as [_ H].
  destruct (H 0 eq_refl) as (_ & _ & Hclosed & _ & _ & _ & Hquiet).
  split.
  - apply Hclosed. eexists. reflexivity.
  - refine (proj2 (Hquiet eq_refl _
      [Opened 0; Received 0 "initial_stats" baseline_text; Failed 0 false;
       Tick 5000; TimerFired 0] eq_refl)).
    intros [|h'] es Hes Hne; [done|]. vm_compute in Hes. discriminate Hes.
Defined.

(** C2 as claimed fails on the page torn down while a reconnect is
    pending: the timer set before [disconnect] is still there after it and,
    once due, opens a new source whose [open] event adds an entry to the
    log. *)
Lemma reconnect_timer_survives_disconnect :
  connected torn_down = false ∧
  ready 0 torn_down = Some CLOSED ∧
  timers torn_down = [mkTimer 0 3000] ∧
  length (metrics torn_down) = 3 ∧
  ready 1 (steps [Tick 3000; TimerFired 0] torn_down) = Some CONNECTING ∧
  connected (steps [Tick 3000; TimerFired 0; Opened 1] torn_down) = true ∧
  length (metrics (steps [Tick 3000; TimerFired 0; Opened 1] torn_down)) = 4.
Proof. repeat split; reflexivity. Qed.

(** * More about the monitoring page *)

(** ** What one call can change *)

(** The ways a received event ends: nothing happens, a listener throws
    leaving the world as it was, the [initial_stats] listener completes,
    the [message] listener completes, [onopen] runs, [onerror] runs, or
    [onerror] throws at its [close] on a page that holds no source. *)
Lemma step_received_cases (w : World) (h : nat) (name raw : string) :
  step (Received h name raw) w = (w, None) ∨
  (∃ e, step (Received h name raw) w = (w, Some e)) ∨
  (∃ data,
     JSON.parse raw = Some data ∧
     step (Received h name raw) w =
       (set_metrics
          (mkLogEntry (toLocaleTimeString w (clock w)) (Text "Initial stats received") info
             :: take 99 (metrics w))
          (set_stats (spread (stats w) data) w), None)) ∨
  (∃ data metric value,
     JSON.parse raw = Some data ∧
     step (Received h name raw) w = (after_message data metric value w, None)) ∨
  (ready h w = Some OPEN ∧ step (Received h name raw) w = (opened_world w, None)) ∨
  (∃ held, step (Received h name raw) w = (errored_world held w, None)) ∨
  step (Received h name raw) w
  = (set_metrics (lost_entry w :: take 99 (metrics w)) (set_connected false w),
     Some null_error).
Proof.
  destruct (decide (ready h w = Some OPEN)) as [Hr|Hr];
    [|left; by apply step_received_unready].
  destruct (String.eqb_spec name "open") as [->|Hopen].
  { do 4 right. left. split; [done|]. by apply step_received_open. }
  destruct (String.eqb_spec name "error") as [->|Herror].
  { do 5 right. destruct (eventSource w) as [held|] eqn:Hheld.
    - left. exists held. by apply step_received_error.
    - right. by apply step_received_error_unheld. }
  unfold step. rewrite Hr. unfold listener.
  destruct (String.eqb_spec name "initial_stats") as [->|_].
  { destruct (JSON.parse raw) as [data|] eqn:Hp; unfold run.
    + right. right. left. exists data. by rewrite (on_initial_stats_parsed _ _ _ Hp).
    + right. left. eexists. by rewrite (on_initial_stats_unparsed _ _ Hp). }
  destruct (String.eqb_spec name "message") as [->|_].
  { destruct (JSON.parse raw) as [data|] eqn:Hp; unfold run.
    + destruct (on_message_parsed raw data w Hp)
        as [(e & _ & ->)|[(m & v & _ & _ & _ & _ & ->)|(m & v & _ & _ & _ & ->)]].
      * right. left. by eexists.
      * right. left. by eexists.
      * right. right. right. left. by exists data, m, v.
    + right. left. eexists. by rewrite (on_message_unparsed _ _ Hp). }
  destruct (String.eqb_spec name "heartbeat") as [->|_]; [by left|].
  destruct (String.eqb_spec name "open") as [->|_]; [done|].
  destruct (String.eqb_spec name "error") as [->|_]; [done|by left].
Qed.

Lemma after_message_fields (data metric value : Value) (w : World) :
  let w' := after_message data metric value w in
  (metrics w' = metrics w ∨ ∃ e, metrics w' = e :: take 99 (metrics w)) ∧
  (stats w' = stats w ∨ stats w' = spread (stats w) data) ∧
  eventSource w' = eventSource w ∧ connected w' = connected w ∧
  sources w' = sources w ∧ timers w' = timers w ∧ clock w' = clock w ∧
  localStorage w' = localStorage w ∧ VITE_API_URL w' = VITE_API_URL w ∧
  url_error w' = url_error w ∧ toLocaleTimeString w' = toLocaleTimeString w.
Proof.
  cbv zeta. unfold after_message.
  destruct (has_field data "cache_hit_rate"), (truthy metric); cbn; eauto 20.
Qed.

(** A call adds at most one entry to the log, and only at its head. *)
Lemma step_metrics (ev : Event) (w : World) :
  metrics (step ev w).1 = metrics w ∨
  ∃ e, metrics (step ev w).1 = e :: take 99 (metrics w).
Proof.
  destruct ev as [| | | |h|h name raw|h fatal|i|dt].
  6:{ destruct (step_received_cases w h name raw)
        as [->|[(e & ->)|[(data & _ & ->)|[(data & m & v & _ & ->)|
            [[_ ->]|[(held & ->)| ->]]]]]]; cbn; eauto.
      apply after_message_fields. }
  all: run_all; eauto.
Qed.

(** A call merges at most one payload into the stats. *)
Lemma step_stats (ev : Event) (w : World) :
  stats (step ev w).1 = stats w ∨
  ∃ data, stats (step ev w).1 = spread (stats w) data.
Proof.
  destruct ev as [| | | |h|h name raw|h fatal|i|dt].
  6:{ destruct (step_received_cases w h name raw)
        as [->|[(e & ->)|[(data & _ & ->)|[(data & m & v & _ & ->)|
            [[_ ->]|[(held & ->)| ->]]]]]]; cbn; eauto.
      destruct (after_message_fields data m v w) as (_ & [->| ->] & _); eauto. }
  all: run_all; eauto.
Qed.

(** No call writes to storage or to the environment, and the clock only
    moves forward. *)
Lemma step_environment (ev : Event) (w : World) :
  localStorage (step ev w).1 = localStorage w ∧
  VITE_API_URL (step ev w).1 = VITE_API_URL w ∧
  url_error (step ev w).1 = url_error w ∧
  toLocaleTimeString (step ev w).1 = toLocaleTimeString w ∧
  (clock w ≤ clock (step ev w).1)%N.
Proof.
  destruct ev as [| | | |h|h name raw|h fatal|i|dt].
  6:{ destruct (step_received_cases w h name raw)
        as [->|[(e & ->)|[(data & _ & ->)|[(data & m & v & _ & ->)|
            [[_ ->]|[(held & ->)| ->]]]]]]; cbn; try done.
      destruct (after_message_fields data m v w) as (_ & _ & _ & _ & _ & _ & -> & -> & -> & -> & ->).
      done. }
  all: run_all; repeat split; try done; lia.
Qed.

Lemma steps_snoc (evs : list Event) (ev : Event) (w : World) :
  steps (evs ++ [ev]) w = (step ev (steps evs w)).1.
Proof. unfold steps. by rewrite foldl_app. Qed.

Lemma steps_cons (ev : Event) (evs : list Event) (w : World) :
  steps (ev :: evs) w = steps evs (step ev w).1.
Proof. reflexivity. Qed.

(** A property the first rendering has and every call keeps holds in every
    world the page can be in. *)
Lemma reachable_ind (P : World → Prop) :
  (∀ storage api_url url_err fmt, P (fresh storage api_url url_err fmt)) →
  (∀ ev w, P w → P (step ev w).1) →
  ∀ w, reachable w → P w.
Proof.
  intros Hfresh Hstep w (storage & api_url & url_err & fmt & evs & ->).
  induction evs as [|ev evs IH] using rev_ind; [apply Hfresh|].
  rewrite steps_snoc. by apply Hstep.
Qed.

Lemma reachable_steps (evs : list Event) (w : World) :
  reachable w → reachable (steps evs w).
Proof.
  intros (storage & api_url & url_err & fmt & evs0 & ->).
  exists storage, api_url, url_err, fmt, (evs0 ++ evs).
  unfold steps. by rewrite foldl_app.
Qed.

(** ** The log stays within its bound *)

(** X1.  Whatever reaches the page, in whatever order, the log never holds
    more than 100 entries. *)
Theorem log_never_exceeds_100 (w : World) :
  reachable w → (length (metrics w) ≤ 100)%nat.
Proof.
  revert w. apply reachable_ind.
  - intros. simpl. lia.
  - intros ev w Hw.
    destruct (step_metrics ev w) as [->|[e ->]]; [done|].
    rewrite length_cons, length_take. lia.
Qed.

Lemma log_never_exceeds_100_witness :
  reachable (steps [Mount; Opened 0; Failed 0 false] page0) ∧
  (length (metrics (steps [Mount; Opened 0; Failed 0 false] page0)) ≤ 100)%nat.
Proof.
  assert (Hr : reachable (steps [Mount; Opened 0; Failed 0 false] page0)).
  { exists ∅, None, (λ _, None), pretty, [Mount; Opened 0; Failed 0 false]. reflexivity. }
  split; [exact Hr|]. exact (log_never_exceeds_100 _ Hr).
Defined.

(** ** Stats fields are never lost *)

Lemma spread_keeps_keys (m : gmap string Value) (data : Value) (k : string) :
  is_Some (m !! k) → is_Some (spread m data !! k).
Proof.
  intros Hk. rewrite spread_lookup. by destruct (assoc_last k (own_props data)).
Qed.

(** X2.  No call removes a field from the stats: a field that is there stays
    there whatever arrives, so the four fields the page starts with (and
    displays) are defined in every world the page can be in. *)
Theorem stats_fields_are_never_lost :
  (∀ evs w k, is_Some (stats w !! k) → is_Some (stats (steps evs w) !! k)) ∧
  (∀ w k, reachable w →
     k ∈ ["total_keys"; "cache_hit_rate"; "avg_response_time_ms"; "requests_per_second"] →
     is_Some (stats w !! k)).
Proof.
  assert (Hsteps : ∀ evs w k,
            is_Some (stats w !! k) → is_Some (stats (steps evs w) !! k)).
  { induction evs as [|ev evs IH]; intros w k Hk; [done|].
    rewrite steps_cons. apply IH.
    destruct (step_stats ev w) as [->|[data ->]]; [done|].
    by apply spread_keeps_keys. }
  split; [exact Hsteps|].
  intros w k (storage & api_url & url_err & fmt & evs & ->) Hk.
  apply Hsteps. cbn [stats fresh].
  set_unfold. destruct Hk as [->|[->|[->|[->|[]]]]]; by eexists.
Qed.

Lemma stats_fields_are_never_lost_witness :
  is_Some (stats page1 !! "total_keys") ∧
  is_Some (stats (steps [Received 0 "initial_stats" extra_text; Failed 0 true] page1)
             !! "total_keys").
Proof.
  assert (H0 : is_Some (stats page1 !! "total_keys")) by (eexists; reflexivity).
  split; [exact H0|].
  exact (proj1 stats_fields_are_never_lost _ page1 "total_keys" H0).
Defined.

(** ** Storage and the address *)

(** X3.  The page never writes to storage or to its environment: over any
    sequence of calls the stored token is what it was, and so is the address
    every reconnect asks for. *)
Theorem page_never_writes_the_token (evs : list Event) (w : World) :
  localStorage (steps evs w) = localStorage w ∧
  stream_url (steps evs w) = stream_url w ∧
  url_error (steps evs w) = url_error w.
Proof.
  revert w. induction evs as [|ev evs IH]; intros w; [done|].
  rewrite steps_cons.
  destruct (IH (step ev w).1) as (-> & -> & ->).
  destruct (step_environment ev w) as (Hs & Hv & Hu & _).
  unfold stream_url, API_BASE_URL. by rewrite Hs, Hv, Hu.
Qed.

(** ** The Connected indicator *)

Lemma ready_app_l (w : World) (h : nat) (r : ReadyState) (es : list EventSource) (w' : World) :
  sources w' = sources w ++ es → ready h w = Some r → ready h w' = Some r.
Proof.
  unfold ready. intros -> Hr.
  destruct (sources w !! h) as [x|] eqn:Hx; [|done].
  by rewrite (lookup_app_l_Some _ _ _ _ Hx).
Qed.

(** What a call does to [connected] and to the open sources: it clears the
    flag, or it leaves the flag and every open source alone, or it opens a
    source. *)
Lemma step_connected (ev : Event) (w : World) :
  connected (step ev w).1 = false ∨
  (connected (step ev w).1 = connected w ∧
   ∀ h, ready h w = Some OPEN → ready h (step ev w).1 = Some OPEN) ∨
  (∃ h, ready h (step ev w).1 = Some OPEN).
Proof.
  assert (Hconnect : ∀ w0,
    connected (run connectSSE w0).1 = connected w0 ∧
    ∀ h, ready h w0 = Some OPEN → ready h (run connectSSE w0).1 = Some OPEN).
  { intros w0. unfold run. destruct (url_error w0 (stream_url w0)) as [msg|] eqn:Hu.
    - by rewrite (connectSSE_rejected w0 msg Hu).
    - rewrite (connectSSE_accepted w0 Hu). split; [done|]. intros h.
      by apply ready_app_l with (es := [mkEventSource (stream_url w0) CONNECTING]). }
  assert (Hdisconnect : ∀ w0,
    connected (run disconnect w0).1 = false ∨ (run disconnect w0).1 = w0).
  { intros w0. unfold run. destruct (eventSource w0) as [h|] eqn:Hheld.
    - left. by rewrite (disconnect_run w0 h Hheld).
    - right. by rewrite (disconnect_without_source w0 Hheld). }
  destruct ev as [| | | |h|h name raw|h fatal|i|dt];
    [unfold step..|idtac|unfold step|unfold step|unfold step].
  - right. left. apply Hconnect.
  - destruct (Hdisconnect w) as [?| ->]; [by left|by right; left].
  - destruct (connected w) eqn:Hc; [by right; left|].
    right. left. rewrite <- Hc. apply Hconnect.
  - destruct (connected w) eqn:Hc; [|by left].
    destruct (Hdisconnect w) as [?| ->]; [by left|by right; left].
  - destruct (ready h w) as [[]|] eqn:Hr; try by right; left.
    right. right. exists h. unfold run, onopen, ready in *. exec.
    cbn [fst sources set_metrics set_connected set_ready set_sources].
    rewrite list_lookup_alter_eq. by destruct (sources w !! h).
  - destruct (step_received_cases w h name raw)
      as [->|[(e & ->)|[(data & _ & ->)|[(data & m & v & _ & ->)|
          [[Hr ->]|[(held & ->)| ->]]]]]]; cbn [fst].
    + by right; left.
    + by right; left.
    + by right; left.
    + right. left.
      destruct (after_message_fields data m v w) as (_ & _ & _ & Hc & Hs & _).
      split; [done|]. intros h'. unfold ready. by rewrite Hs.
    + right. right. by exists h.
    + by left.
    + by left.
  - destruct (ready h w) as [[]|]; try by right; left.
    all: left; by run_all.
  - destruct (timers w !! i) as [t|]; [|by right; left].
    destruct (due t w); [|by right; left].
    right. left. apply (Hconnect (set_timers (delete i (timers w)) w)).
  - by right; left.
Qed.

(** X4.  In every world the page can be in, [connected] is true only while
    some source is open: the indicator never shows Connected over closed
    transports. *)
Theorem connected_only_while_a_source_is_open (w : World) :
  reachable w → connected w = true → ∃ h, ready h w = Some OPEN.
Proof.
  revert w.
  apply (reachable_ind (λ w, connected w = true → ∃ h, ready h w = Some OPEN)); [done|].
  intros ev w IH Hc.
  destruct (step_connected ev w) as [Hfalse|[[Hsame Hopen]|Hopened]].
  - congruence.
  - destruct IH as [h Hh]; [congruence|]. exists h. by apply Hopen.
  - exact Hopened.
Qed.

Lemma connected_only_while_a_source_is_open_witness :
  reachable page1 ∧ connected page1 = true ∧ ∃ h, ready h page1 = Some OPEN.
Proof.
  assert (Hr : reachable page1).
  { exists ∅, None, (λ _, None), pretty, [Mount; Opened 0]. reflexivity. }
  split; [exact Hr|]. split; [reflexivity|].
  exact (connected_only_while_a_source_is_open page1 Hr eq_refl).
Defined.

(** ** Timers *)

Lemma step_timers (ev : Event) (w : World) :
  timers (step ev w).1 = timers w ∨
  timers (step ev w).1 = timers w ++ [mkTimer (clock w) 3000] ∨
  ∃ i, timers (step ev w).1 = delete i (timers w).
Proof.
  destruct ev as [| | | |h|h name raw|h fatal|i|dt].
  6:{ destruct (step_received_cases w h name raw)
        as [->|[(e & ->)|[(data & _ & ->)|[(data & m & v & _ & ->)|
            [[_ ->]|[(held & ->)| ->]]]]]]; cbn [fst]; eauto.
      left. by destruct (after_message_fields data m v w) as (_ & _ & _ & _ & _ & -> & _). }
  all: run_all; eauto.
Qed.

(** X5.  Every timer pending in a world the page can be in is a reconnect
    timer of 3000 ms that was set in the past: no other delay is ever
    used. *)
Theorem every_timer_is_a_3000ms_reconnect (w : World) :
  reachable w →
  Forall (λ t, delay t = 3000%N ∧ (set_at t ≤ clock w)%N) (timers w).
Proof.
  revert w.
  apply (reachable_ind
           (λ w, Forall (λ t, delay t = 3000%N ∧ (set_at t ≤ clock w)%N) (timers w)));
    [by constructor|].
  intros ev w IH.
  destruct (step_environment ev w) as (_ & _ & _ & _ & Hclock).
  assert (Hold : Forall (λ t, delay t = 3000%N ∧ (set_at t ≤ clock (step ev w).1)%N)
                   (timers w)).
  { eapply Forall_impl; [exact IH|]. intros t [? ?]. split; [done|lia]. }
  destruct (step_timers ev w) as [->|[->|[i ->]]].
  - exact Hold.
  - apply Forall_app. split; [exact Hold|]. constructor; [|constructor]. done.
  - by apply Forall_delete.
Qed.

Lemma every_timer_is_a_3000ms_reconnect_witness :
  reachable (steps [Mount; Tick 7; Failed 0 true; Tick 10] page0) ∧
  timers (steps [Mount; Tick 7; Failed 0 true; Tick 10] page0) = [mkTimer 7 3000] ∧
  Forall (λ t, delay t = 3000%N ∧ (set_at t ≤ 17)%N)
    (timers (steps [Mount; Tick 7; Failed 0 true; Tick 10] page0)).
Proof.
  assert (Hr : reachable (steps [Mount; Tick 7; Failed 0 true; Tick 10] page0)).
  { exists ∅, None, (λ _, None), pretty, [Mount; Tick 7; Failed 0 true; Tick 10].
    reflexivity. }
  split; [exact Hr|]. split; [reflexivity|].
  exact (every_timer_is_a_3000ms_reconnect _ Hr).
Defined.

(** ** A set-up that fails *)

(** X6.  When the browser refuses the address, [connectSSE] neither throws
    nor retries: it adds one [error] entry carrying the browser's message
    and leaves everything else as it was, with no source made and no timer
    set.  On a page where nothing else is pending, no later call that nobody
    prompted makes another attempt. *)
Theorem refused_setup_is_logged_not_retried (w : World) (msg : string) :
  url_error w (stream_url w) = Some msg →
  let w' := (run connectSSE w).1 in
  (run connectSSE w).2 = None ∧
  w' = set_metrics
         (mkLogEntry (toLocaleTimeString w (clock w))
            (Text ("Failed to connect: " +:+ msg)) error :: take 99 (metrics w)) w ∧
  (quiet w →
   ∀ evs, forallb unprompted evs = true →
     sources (steps evs w') = sources w ∧ metrics (steps evs w') = metrics w').
Proof.
  intros Hu. cbv zeta. unfold run. rewrite (connectSSE_rejected w msg Hu). cbn [fst snd].
  split; [done|]. split; [done|].
  intros Hq evs Hevs.
  set (w' := set_metrics _ w).
  assert (Hq' : quiet w') by exact Hq.
  destruct (quiet_steps evs w' Hevs Hq') as (_ & -> & _ & ->). done.
Qed.

Lemma refused_setup_is_logged_not_retried_witness :
  url_error (fresh ∅ None (λ _, Some "bad address") pretty)
    (stream_url (fresh ∅ None (λ _, Some "bad address") pretty)) = Some "bad address" ∧
  metrics (steps [Mount; Tick 5000; TimerFired 0; Opened 0]
             (fresh ∅ None (λ _, Some "bad address") pretty))
  = [mkLogEntry "0" (Text "Failed to connect: bad address") error].
Proof.
  split; [reflexivity|].
  destruct (refused_setup_is_logged_not_retried
              (fresh ∅ None (λ _, Some "bad address") pretty) "bad address" eq_refl)
    as (_ & _ & Hquiet).
  assert (Hq : quiet (fresh ∅ None (λ _, Some "bad address") pretty))
    by (split; [reflexivity|split; [reflexivity|constructor]]).
  destruct (Hquiet Hq [Tick 5000; TimerFired 0; Opened 0] eq_refl) as [_ Hm].
  exact Hm.
Defined.

(** ** Connecting and disconnecting again *)

(** X7.  From a page with nothing pending, a click on Connect, the open
    event of the new source and a click on Disconnect lead back to a page
    with nothing pending: the source is closed, the state is Disconnected,
    the stats are untouched and the log has gained exactly the success and
    the warning entry. *)
Theorem connect_then_disconnect_returns_to_rest (w : World) :
  quiet w →
  url_error w (stream_url w) = None →
  let h := length (sources w) in
  let w' := steps [ClickConnect; Opened h; ClickDisconnect] w in
  quiet w' ∧
  connectionState w' = Disconnected ∧
  ready h w' = Some CLOSED ∧
  stats w' = stats w ∧
  message <$> metrics w' =
    take 100 (Text "Disconnected from stream" :: Text "✓ Connected to real-time stream"
              :: (message <$> metrics w)).
Proof.
  intros (Hc & Ht & Hall) Hu.
  set (h := length (sources w)).
  set (w1 := set_eventSource (Some h)
               (set_sources (sources w ++ [mkEventSource (stream_url w) CONNECTING]) w)).
  assert (H1 : step ClickConnect w = (w1, None)).
  { unfold step. rewrite Hc. unfold run. by rewrite (connectSSE_accepted w Hu). }
  assert (Hr1 : ready h w1 = Some CONNECTING).
  { unfold ready, w1, h. cbn [sources set_eventSource set_sources].
    rewrite lookup_app_r by done. by rewrite Nat.sub_diag. }
  set (w2 := set_metrics
               (mkLogEntry (toLocaleTimeString w (clock w))
                  (Text "✓ Connected to real-time stream") success :: take 99 (metrics w))
               (set_connected true (set_ready h OPEN w1))).
  assert (H2 : step (Opened h) w1 = (w2, None)).
  { unfold step. rewrite Hr1. reflexivity. }
  set (w3 := set_metrics (disconnected_entry w2 :: take 99 (metrics w2))
               (set_connected false
                  (set_sources (alter close_source h (sources w2)) w2))).
  assert (H3 : step ClickDisconnect w2 = (w3, None)).
  { unfold step. change (connected w2) with true. cbv iota.
    unfold run. by rewrite (disconnect_run w2 h eq_refl). }
  assert (Hw' : steps [ClickConnect; Opened h; ClickDisconnect] w = w3).
  { unfold steps. cbn [foldl].
    rewrite H1. cbn [fst]. rewrite H2. cbn [fst]. by rewrite H3. }
  cbv zeta. fold h. rewrite Hw'.
  assert (Hsources : sources w3 = sources w ++ [mkEventSource (stream_url w) CLOSED]).
  { unfold w3, w2, w1, h.
    cbn [sources set_metrics set_connected set_ready set_eventSource set_sources].
    rewrite !alter_app_r_alt by done. rewrite Nat.sub_diag. reflexivity. }
  assert (Hready : ready h w3 = Some CLOSED).
  { unfold ready. rewrite Hsources. unfold h.
    rewrite lookup_app_r by done. by rewrite Nat.sub_diag. }
  split; [|split; [|split; [|split]]].
  - split; [done|]. split; [exact Ht|]. rewrite Hsources.
    apply Forall_app. split; [exact Hall|]. by repeat constructor.
  - unfold connectionState.
    change (connected w3) with false. change (eventSource w3) with (Some h).
    cbn [mbind option_bind]. rewrite Hready.
    change (timers w3) with (timers w). by rewrite Ht.
  - exact Hready.
  - done.
  - unfold w3, w2.
    cbn [metrics set_metrics set_connected set_sources disconnected_entry].
    rewrite !fmap_cons, !fmap_take, fmap_cons. cbn [message].
    change (take 100 (?a :: ?b :: ?l)) with (a :: take 99 (b :: l)).
    f_equal. cbn [take]. f_equal. by rewrite fmap_take, take_take.
Qed.

Lemma connect_then_disconnect_returns_to_rest_witness :
  quiet page0 ∧
  url_error page0 (stream_url page0) = None ∧
  connectionState (steps [ClickConnect; Opened 0; ClickDisconnect] page0) = Disconnected ∧
  message <$> metrics (steps [ClickConnect; Opened 0; ClickDisconnect] page0) =
    [Text "Disconnected from stream"; Text "✓ Connected to real-time stream"].
Proof.
  assert (Hq : quiet page0) by (split; [reflexivity|split; [reflexivity|constructor]]).
  split; [exact Hq|]. split; [reflexivity|].
  destruct (connect_then_disconnect_returns_to_rest page0 Hq eq_refl)
    as (_ & Hstate & _ & _ & Hlog).
  split; [exact Hstate|exact Hlog].
Defined.

(** X8.  [disconnect] is not idempotent on the log: called again on the
    page it has just disconnected (as a teardown after a click on
    Disconnect does) it adds a second [warning] entry, and changes nothing
    else. *)
Theorem second_disconnect_logs_again (w : World) (h : nat) :
  eventSource w = Some h →
  let w1 := (run disconnect w).1 in
  let w2 := (run disconnect w1).1 in
  w2 = set_metrics (disconnected_entry w1 :: take 99 (metrics w1)) w1 ∧
  head (metrics w2) = Some (disconnected_entry w) ∧
  metrics w2 !! 1 = Some (disconnected_entry w).
Proof.
  intros Hheld.
  set (w1 := set_metrics (disconnected_entry w :: take 99 (metrics w))
               (set_connected false
                  (set_sources (alter close_source h (sources w)) w))).
  assert (H1 : (run disconnect w).1 = w1).
  { unfold run. by rewrite (disconnect_run w h Hheld). }
  assert (H2 : (run disconnect w1).1
               = set_metrics (disconnected_entry w1 :: take 99 (metrics w1)) w1).
  { unfold run. rewrite (disconnect_run w1 h Hheld). cbn [fst].
    unfold w1 at 2 3. cbn [sources set_metrics set_connected set_sources].
    assert (Hclose : alter close_source h (alter close_source h (sources w))
                     = alter close_source h (sources w)).
    { rewrite list_alter_alter_eq. by apply list_alter_ext. }
    rewrite Hclose. reflexivity. }
  cbv zeta. rewrite H1, H2. split; [done|]. split; reflexivity.
Qed.

Lemma second_disconnect_logs_again_witness :
  eventSource page1 = Some 0 ∧
  length (metrics (steps [ClickDisconnect] page1)) = 2 ∧
  length (metrics (steps [ClickDisconnect; Destroy] page1)) = 3.
Proof.
  split; [reflexivity|].
  destruct (second_disconnect_logs_again page1 0 eq_refl) as (Hw2 & _ & _).
  split; [reflexivity|].
  change (steps [ClickDisconnect; Destroy] page1)
    with (run disconnect (run disconnect page1).1).1.
  rewrite Hw2. reflexivity.
Defined.

(** ** Payloads at the edges *)

Lemma parse_step_defined (st st' : list JSON.Frame * JSON.Mode) (t : JSON.Token) (v : Value) :
  JSON.parse_step st t = Some st' → st'.2 = JSON.MDone v → v ≠ Undefined.
Proof.
  destruct st as [stack mode], st' as [stack' mode']. cbn [snd]. intros Hstep ->.
  unfold JSON.parse_step, JSON.open_value, JSON.scalar_of in Hstep.
  repeat case_match; simplify_option_eq; done.
Qed.

Lemma parse_tokens_defined (ts : list JSON.Token) (st : list JSON.Frame * JSON.Mode) (v : Value) :
  (∀ v', st.2 = JSON.MDone v' → v' ≠ Undefined) →
  JSON.parse_tokens st ts = Some v → v ≠ Undefined.
Proof.
  revert st. induction ts as [|t ts IH]; intros st Hst; cbn [JSON.parse_tokens].
  - destruct st as [[|? ?] []]; try done. intros [= <-]. by apply Hst.
  - destruct (JSON.parse_step st t) as [st'|] eqn:Hstep; [|done]. cbn.
    apply IH. intros v'. by apply (parse_step_defined st st' t).
Qed.

(** [JSON.parse] never returns [undefined]. *)
Lemma parse_defined (text : string) (v : Value) :
  JSON.parse text = Some v → v ≠ Undefined.
Proof.
  unfold JSON.parse. destruct (JSON.lex _ _) as [ts|]; [|done]. cbn.
  by apply parse_tokens_defined.
Qed.

(** X9.  On a payload that parses, the [message] listener throws in two
    cases only: the payload is [null], or its [metric] is truthy and
    [metric] or [value] has no string form (an object with a [toString]
    field of its own).  When it throws nothing has been logged or merged,
    even if the payload carries a [cache_hit_rate]. *)
Theorem message_listener_throws_exactly_when
    (w : World) (raw : string) (data : Value) :
  JSON.parse raw = Some data →
  ((run (on_message raw) w).2 ≠ None ↔
   data = Null ∨
   ∃ metric value,
     get_prop data "metric" = inr metric ∧ get_prop data "value" = inr value ∧
     truthy metric = true ∧ stringifies metric && stringifies value = false) ∧
  ((run (on_message raw) w).2 ≠ None → (run (on_message raw) w).1 = w).
Proof.
  intros Hp. pose proof (parse_defined raw data Hp) as Hdef. unfold run.
  destruct (on_message_parsed raw data w Hp)
    as [(e & He & ->)|[(m & v & Hm & Hv & Ht & Hs & ->)|(m & v & Hm & Hv & Hs & ->)]];
    cbn [fst snd].
  - split; [|done]. split; [intros _|done].
    left. destruct data; simplify_eq/=; done.
  - split; [|done]. split; [intros _|done]. right. by exists m, v.
  - split; [|done]. split; [done|]. intros [->|(m' & v' & Hm' & Hv' & Ht' & Hs')].
    + discriminate Hm.
    + rewrite Hm in Hm'. rewrite Hv in Hv'. simplify_eq.
      rewrite (Hs Ht') in Hs'. discriminate Hs'.
Qed.

Lemma message_listener_throws_exactly_when_witness :
  JSON.parse null_text = Some Null ∧
  run (on_message null_text) page1 = (page1, Some null_error) ∧
  JSON.parse shadowed_text =
    Some (Obj [("metric", Obj [("toString", Num (mkNumber 1 0))]);
               ("cache_hit_rate", Num (mkNumber 9 (-1)))]) ∧
  (run (on_message shadowed_text) page1).1 = page1.
Proof.
  split; [reflexivity|]. split; [reflexivity|]. split; [reflexivity|].
  destruct (message_listener_throws_exactly_when page1 shadowed_text _ eq_refl)
    as [_ Hsame].
  apply Hsame. discriminate.
Defined.

Lemma set_stats_same (w : World) : set_stats (stats w) w = w.
Proof. by destruct w. Qed.

(** X10.  Payloads without fields.  An [initial_stats] payload that has no
    field of its own ([null], a number, a boolean, an empty string, array or
    object) changes no stat and is still logged as received.  A [message]
    payload that is a number, a boolean, a string or an array is dropped
    without a trace: the world after it is the world before it, and nothing
    is thrown. *)
Theorem payloads_without_fields (w : World) (raw : string) (data : Value) :
  JSON.parse raw = Some data →
  (own_props data = [] →
   run (on_initial_stats raw) w =
     (set_metrics
        (mkLogEntry (toLocaleTimeString w (clock w)) (Text "Initial stats received") info
           :: take 99 (metrics w)) w, None)) ∧
  (data ≠ Null → (∀ props, data ≠ Obj props) →
   run (on_message raw) w = (w, None)).
Proof.
  intros Hp. split.
  - intros Hnone. unfold run. rewrite (on_initial_stats_parsed _ _ _ Hp).
    unfold spread. rewrite Hnone. cbn [foldl]. by rewrite set_stats_same.
  - intros Hnull Hobj. pose proof (parse_defined raw data Hp) as Hdef. unfold run.
    destruct (on_message_parsed raw data w Hp)
      as [(e & He & ->)|[(m & v & Hm & Hv & Ht & Hs & ->)|(m & v & Hm & Hv & Hs & ->)]].
    + destruct data; simplify_eq/=; done.
    + destruct data; simplify_eq/=. by destruct (Hobj props).
    + destruct data; simplify_eq/=; try done. by destruct (Hobj props).
Qed.

Lemma payloads_without_fields_witness :
  JSON.parse null_text = Some Null ∧
  own_props Null = [] ∧
  stats (run (on_initial_stats null_text) page1).1 = stats page1 ∧
  length (metrics (run (on_initial_stats null_text) page1).1) = 2 ∧
  JSON.parse "[1, 2]" = Some (Arr [Num (mkNumber 1 0); Num (mkNumber 2 0)]) ∧
  run (on_message "[1, 2]") page1 = (page1, None).
Proof.
  split; [reflexivity|]. split; [reflexivity|].
  destruct (payloads_without_fields page1 null_text Null eq_refl) as [Hinit _].
  destruct (payloads_without_fields page1 "[1, 2]" _ eq_refl) as [_ Hmsg].
  rewrite (Hinit eq_refl).
  split; [reflexivity|]. split; [reflexivity|]. split; [reflexivity|].
  apply Hmsg; [discriminate|]. intros props. discriminate.
Defined.

(** ** Merging one payload after another *)

Lemma spread_twice (m : gmap string Value) (data : Value) :
  spread (spread m data) data = spread m data.
Proof.
  apply map_eq. intros k. rewrite !spread_lookup.
  by destruct (assoc_last k (own_props data)).
Qed.

(** X11.  Merges compose in arrival order.  After two [initial_stats]
    payloads a field holds the value of the later payload if that has the
    field, else the value of the earlier one if that has it, else the value
    it had; and receiving the same payload twice leaves the stats as after
    receiving it once. *)
Theorem later_payload_wins (w : World) (raw1 raw2 : string) (d1 d2 : Value) :
  JSON.parse raw1 = Some d1 →
  JSON.parse raw2 = Some d2 →
  let w1 := (run (on_initial_stats raw1) w).1 in
  let w2 := (run (on_initial_stats raw2) w1).1 in
  (∀ k,
     stats w2 !! k =
       match assoc_last k (own_props d2), assoc_last k (own_props d1) with
       | Some v, _ => Some v
       | None, Some v => Some v
       | None, None => stats w !! k
       end) ∧
  (raw1 = raw2 → stats w2 = stats w1).
Proof.
  intros Hp1 Hp2. cbv zeta. unfold run.
  rewrite (on_initial_stats_parsed raw1 d1 w Hp1). cbn [fst].
  rewrite (on_initial_stats_parsed raw2 d2 _ Hp2).
  cbn [fst stats set_metrics set_stats]. split.
  - intros k. rewrite !spread_lookup.
    by destruct (assoc_last k (own_props d2)), (assoc_last k (own_props d1)).
  - intros <-. rewrite Hp1 in Hp2. injection Hp2 as <-. apply spread_twice.
Qed.

Lemma later_payload_wins_witness :
  JSON.parse baseline_text =
    Some (Obj [("total_keys", Num (mkNumber 10 0)); ("cache_hit_rate", Num (mkNumber 5 (-1)))]) ∧
  JSON.parse delta_text = Some (Obj [("cache_hit_rate", Num (mkNumber 9 (-1)))]) ∧
  let w2 := (run (on_initial_stats delta_text)
               (run (on_initial_stats baseline_text) page1).1).1 in
  stats w2 !! "cache_hit_rate" = Some (Num (mkNumber 9 (-1))) ∧
  stats w2 !! "total_keys" = Some (Num (mkNumber 10 0)) ∧
  stats w2 !! "requests_per_second" = Some zero.
Proof.
  split; [reflexivity|]. split; [reflexivity|].
  destruct (later_payload_wins page1 baseline_text delta_text _ _
              baseline_parses delta_parses) as [Hlookup _].
  cbv zeta. rewrite !Hlookup. repeat split; reflexivity.
Defined.

(** * lib/api.js and App.svelte *)

(** ** The stored token *)

(** X12.  Storing and reading the token.  [setToken] stores the text of
    what it is given (so [undefined] is stored as the text undefined);
    [getToken] then returns that text, here and in the monitoring page;
    [isAuthenticated] is true unless the text is empty; no other storage
    key is touched.  [clearToken] after it leaves no token, and
    [isAuthenticated] false. *)
Theorem stored_token_round_trip (s : Site) (token : Value) (text : string) :
  ToString (number_text s) token = inr text →
  ∃ s' s'',
    authStore_setToken token s = Done () s' ∧
    authStore_getToken s' = Done (Some text) s' ∧
    getToken (world s') = Return (Some text) (world s') ∧
    authStore_isAuthenticated s' = Done (negb (String.eqb text EmptyString)) s' ∧
    (∀ k, k ≠ "token" → storage s' !! k = storage s !! k) ∧
    authStore_clearToken s' = Done () s'' ∧
    authStore_getToken s'' = Done None s'' ∧
    authStore_isAuthenticated s'' = Done false s'' ∧
    (∀ k, k ≠ "token" → storage s'' !! k = storage s !! k).
Proof.
  intros Htext.
  exists (set_world (set_localStorage (<["token" := text]> (storage s)) (world s)) s),
         (set_world (set_localStorage (delete "token" (<["token" := text]> (storage s)))
                       (world s)) s).
  api. rewrite Htext. cbv beta iota. unfold storage, getToken. exec.
  cbn [world localStorage set_world set_localStorage].
  rewrite lookup_insert_eq, lookup_delete_eq.
  repeat split; try reflexivity.
  - intros k Hk. by rewrite lookup_insert_ne.
  - intros k Hk. by rewrite lookup_delete_ne, lookup_insert_ne.
Qed.

Lemma stored_token_round_trip_witness :
  ToString (number_text signed_in) Undefined = inr "undefined" ∧
  ∃ s',
    authStore_setToken Undefined signed_in = Done () s' ∧
    authStore_isAuthenticated s' = Done true s' ∧
    storage s' !! "theme" = Some "dark".
Proof.
  split; [reflexivity|].
  destruct (stored_token_round_trip signed_in Undefined "undefined" eq_refl)
    as (s' & s'' & Hset & _ & _ & Hauth & Hkeep & _).
  exists s'. split; [exact Hset|]. split; [exact Hauth|].
  rewrite Hkeep by discriminate. reflexivity.
Defined.

(** ** What [api.request] makes of a response *)

Lemma keeps_site_bind {A B} (m : Api A) (f : A → Api B) :
  keeps_site m → (∀ a, keeps_site (f a)) → keeps_site (m ≫= f).
Proof.
  intros Hm Hf s. specialize (Hm s). api.
  destruct (m s) as [a s1|e s1]; cbn in Hm; subst s1; [apply Hf|done].
Qed.

Lemma keeps_site_ret {A} (a : A) : keeps_site (mret a).
Proof. done. Qed.

Lemma keeps_site_raise {A} (e : Exn) : keeps_site (raise (A:=A) e).
Proof. done. Qed.

Lemma keeps_site_read {A} (f : Site → A) : keeps_site (read f).
Proof. done. Qed.

Lemma keeps_site_of_sum {A} (x : Error + A) : keeps_site (of_sum x).
Proof. by destruct x. Qed.

Lemma keeps_site_read_body (text : option string) : keeps_site (read_body text).
Proof. unfold read_body. intros s. by repeat case_match. Qed.

Lemma keeps_site_throw_Error {A} (v : Value) : keeps_site (throw_Error (A:=A) v).
Proof.
  unfold throw_Error. apply keeps_site_bind; [apply keeps_site_read|intros fmt].
  apply keeps_site_bind; [apply keeps_site_of_sum|intros text]. apply keeps_site_raise.
Qed.

Lemma keeps_site_failure_reason (data : Value) : keeps_site (failure_reason data).
Proof.
  unfold failure_reason.
  repeat (apply keeps_site_bind; [apply keeps_site_of_sum|intros ?];
          case_match; [apply keeps_site_ret|]).
  apply keeps_site_ret.
Qed.

Lemma settle_other_site (status : nat) (text : option string) (s : Site) :
  status ≠ 401 → site_after (request_settle (Response status text) s) = s.
Proof.
  intros Hs. unfold request_settle.
  destruct (Nat.eqb_spec status 401) as [?|_]; [done|].
  revert s. apply keeps_site_bind; [apply keeps_site_read_body|intros data].
  case_match; [|apply keeps_site_ret].
  apply keeps_site_bind; [apply keeps_site_failure_reason|intros reason].
  apply keeps_site_throw_Error.
Qed.

(** X13.  A 401 signs the user out, whatever the body says: the token is
    removed from storage, the address becomes [/login] and the request
    fails with the message Unauthorized.  The flag of [App.svelte] is not
    touched, and the next stream the monitoring page opens asks for
    [token=null]. *)
Theorem unauthorized_response_signs_out (s : Site) (text : option string) :
  ∃ s',
    request_settle (Response 401 text) s = Fail (PlainError "Unauthorized") s' ∧
    storage s' = delete "token" (storage s) ∧
    href s' = "/login" ∧
    isAuthenticated s' = isAuthenticated s ∧
    authStore_isAuthenticated s' = Done false s' ∧
    stream_url (world s') = API_BASE_URL (world s) +:+ "/streaming/metrics?token=null".
Proof.
  eexists. split; [reflexivity|]. api. unfold storage, stream_url, API_BASE_URL.
  cbn [world href isAuthenticated localStorage VITE_API_URL set_world set_href
       set_localStorage].
  rewrite lookup_delete_eq. done.
Qed.

(** X14.  Nothing but a 401 touches the session: after a network failure or
    a response with any other status, whatever its body, storage, the
    address and the flag are what they were. *)
Theorem only_a_401_touches_the_session (s : Site) (fetched : Fetched) :
  (∀ text, fetched ≠ Response 401 text) →
  site_after (request_settle fetched s) = s.
Proof.
  intros Hne. destruct fetched as [message|status text]; [done|].
  apply settle_other_site. intros ->. by apply (Hne text).
Qed.

Lemma only_a_401_touches_the_session_witness :
  (∀ text, Response 500 (Some "oops") ≠ Response 401 text) ∧
  site_after (request_settle (Response 500 (Some "oops")) signed_in) = signed_in.
Proof.
  assert (H : ∀ text, Response 500 (Some "oops") ≠ Response 401 text) by discriminate.
  split; [exact H|]. exact (only_a_401_touches_the_session signed_in _ H).
Defined.

(** X15.  [api.request] resolves exactly when the status is in 200..299 and
    the body can be read and is empty or JSON; it then returns the parsed
    body, or the empty object for an empty body.  In every other case it
    rejects. *)
Theorem request_resolves_only_on_success
    (s s' : Site) (fetched : Fetched) (data : Value) :
  request_settle fetched s = Done data s' ↔
  ∃ status text,
    fetched = Response status (Some text) ∧ ok status = true ∧ s' = s ∧
    (if String.eqb text EmptyString then data = Obj [] else JSON.parse text = Some data).
Proof.
  split.
  - destruct fetched as [message|status [text|]]; [done| |].
    + unfold request_settle.
      destruct (Nat.eqb_spec status 401) as [->|Hs]; [done|].
      unfold read_body. api.
      destruct (String.eqb text EmptyString) eqn:Hempty; api.
      * destruct (ok status) eqn:Hok; cbn [negb].
        -- intros [= <- <-]. exists status, text. by rewrite Hempty.
        -- unfold failure_reason. api. cbn. api. done.
      * destruct (JSON.parse text) as [v|] eqn:Hp; api; [|done].
        destruct (ok status) eqn:Hok; cbn [negb].
        -- intros [= <- <-]. exists status, text. by rewrite Hempty.
        -- intros Hdone. exfalso. revert Hdone. unfold failure_reason. api.
           repeat (case_match; api; try done).
    + unfold request_settle.
      destruct (Nat.eqb_spec status 401) as [->|Hs]; [done|]. done.
  - intros (status & text & -> & Hok & -> & Hdata).
    unfold request_settle.
    destruct (Nat.eqb_spec status 401) as [->|Hs]; [done|].
    unfold read_body. api. rewrite Hok.
    destruct (String.eqb text EmptyString); [by subst|]. by rewrite Hdata.
Qed.

Lemma request_resolves_only_on_success_witness :
  request_settle (Response 204 (Some EmptyString)) signed_in = Done (Obj []) signed_in ∧
  JSON.parse extra_text =
    Some (Obj [("cache_hit_rate", Num (mkNumber 9 (-1))); ("uptime", Bool true)]) ∧
  request_settle (Response 200 (Some extra_text)) signed_in =
    Done (Obj [("cache_hit_rate", Num (mkNumber 9 (-1))); ("uptime", Bool true)]) signed_in.
Proof.
  split; [|split; [reflexivity|]].
  - apply (request_resolves_only_on_success signed_in signed_in).
    exists 204, EmptyString. repeat split; reflexivity.
  - apply (request_resolves_only_on_success signed_in signed_in).
    exists 200, extra_text. repeat split; reflexivity.
Defined.

(** X16.  A body that cannot be read, or that is neither empty nor JSON,
    hides the status: unless the status is 401, the request fails with
    the message Backend returned invalid JSON, for a 200 as for a 500. *)
Theorem unreadable_body_hides_the_status
    (s : Site) (status : nat) (text : option string) :
  status ≠ 401 →
  (∀ t, text = Some t → t ≠ EmptyString ∧ JSON.parse t = None) →
  request_settle (Response status text) s
  = Fail (PlainError "Backend returned invalid JSON") s.
Proof.
  intros Hs Hbad. unfold request_settle.
  destruct (Nat.eqb_spec status 401) as [?|_]; [done|].
  unfold read_body. api. destruct text as [t|]; [|done].
  destruct (Hbad t eq_refl) as [Hne Hp].
  destruct (String.eqb_spec t EmptyString) as [?|_]; [done|]. by rewrite Hp.
Qed.

Lemma unreadable_body_hides_the_status_witness :
  200 ≠ 401 ∧
  JSON.parse "<html>502 Bad Gateway</html>" = None ∧
  request_settle (Response 200 (Some "<html>502 Bad Gateway</html>")) signed_in
  = Fail (PlainError "Backend returned invalid JSON") signed_in.
Proof.
  split; [discriminate|]. split; [reflexivity|].
  apply unreadable_body_hides_the_status; [discriminate|].
  intros t [= <-]. split; [discriminate|reflexivity].
Defined.

(** ** The request [api.request] sends *)

Lemma header_of_lookup (hs : list (string * string)) (m : gmap string string) (k : string) :
  foldl (λ m kv, <[kv.1 := kv.2]> m) m hs !! k
  = match header_of k hs with Some v => Some v | None => m !! k end.
Proof.
  revert m. induction hs as [|[k' v] hs IH]; intros m; [done|].
  cbn [foldl header_of fst snd]. rewrite IH.
  destruct (header_of k hs); [done|].
  destruct (String.eqb_spec k' k) as [->|Hne].
  - by rewrite lookup_insert_eq.
  - by rewrite lookup_insert_ne.
Qed.

(** X17.  The request [api.request] hands to [fetch] goes to the base
    address followed by the endpoint, with the caller's method and body.
    For every header name, the value is the last one the caller gave under
    that name; where the caller gave none, [Authorization] is Bearer and
    the stored token when there is a non-empty one and absent otherwise,
    [Content-Type] is [application/json], and any other name is absent.
    Preparing the request changes nothing. *)
Theorem request_headers_are_defaults_under_the_callers
    (endpoint : string) (options : Options) (s : Site) :
  ∃ r,
    request_prepare endpoint options s = Done r s ∧
    req_url r = API_BASE_URL (world s) +:+ endpoint ∧
    req_method r = opt_method options ∧
    req_body r = opt_body options ∧
    ∀ k, req_headers r !! k =
         match header_of k (default [] (opt_headers options)) with
         | Some v => Some v
         | None =>
             if String.eqb k "Authorization" then
               match storage s !! "token" with
               | Some text =>
                   if String.eqb text EmptyString then None
                   else Some ("Bearer " +:+ text)
               | None => None
               end
             else if String.eqb k "Content-Type" then Some "application/json"
             else None
         end.
Proof.
  eexists. split; [reflexivity|]. cbn [req_url req_method req_body req_headers].
  repeat split. intros k. unfold request_headers. rewrite header_of_lookup.
  destruct (header_of k _); [done|].
  destruct (String.eqb_spec k "Authorization") as [->|Hauth].
  - destruct (storage s !! "token") as [text|]; [|done].
    destruct (String.eqb text EmptyString); [done|]. by rewrite lookup_insert_eq.
  - destruct (String.eqb_spec k "Content-Type") as [->|Hct].
    + destruct (storage s !! "token") as [text|]; [|done].
      destruct (String.eqb text EmptyString); [done|]. by rewrite lookup_insert_ne.
    + destruct (storage s !! "token") as [text|].
      * destruct (String.eqb text EmptyString).
        -- by rewrite lookup_singleton_ne.
        -- rewrite lookup_insert_ne by done. by rewrite lookup_singleton_ne.
      * by rewrite lookup_singleton_ne.
Qed.

(** ** api.login *)

Lemma failed_login_changes_nothing_aux
    (s s' : Site) (fetched : Fetched) (e : Exn) :
  login_settle fetched s = Fail e s' →
  s' = s ∧
  (∀ status text, fetched = Response status text → ok status = false →
                  e = PlainError "Login failed").
Proof.
  destruct fetched as [message|status text].
  - unfold login_settle. api. intros [= <- <-]. split; [done|]. by intros ? ? [=].
  - unfold login_settle.
    destruct (ok status) eqn:Hok; cbn [negb].
    + assert (Hstatus : ∀ status' text', Response status text = Response status' text' →
                       ok status' = false → e = PlainError "Login failed").
      { intros ? ? [= <- <-] Hno. by rewrite Hok in Hno. }
      unfold response_json. api.
      destruct text as [t|]; [|by intros [= <- <-]].
      destruct (JSON.parse t) as [data|]; [|by intros [= <- <-]].
      destruct (get_prop data "access_token") as [err|tok]; [by intros [= <- <-]|].
      destruct (ToString (number_text s) tok) as [err|text]; [by intros [= <- <-]|].
      done.
    + api. intros [= <- <-]. split; [done|]. by intros ? ? _ _.
Qed.

(** X18.  A login that fails changes nothing: whatever made [api.login]
    reject, storage, the address and the flag are as before.  A response
    outside 200..299 is reported as Login failed, a 401 like any other:
    unlike [api.request], [api.login] neither clears the token nor moves
    to [/login]. *)
Theorem failed_login_changes_nothing
    (s s' : Site) (fetched : Fetched) (e : Exn) :
  login_settle fetched s = Fail e s' →
  s' = s ∧
  (∀ status text, fetched = Response status text → ok status = false →
                  e = PlainError "Login failed").
Proof. apply failed_login_changes_nothing_aux. Qed.

Lemma failed_login_changes_nothing_witness :
  login_settle (Response 401 (Some "{}")) signed_in
  = Fail (PlainError "Login failed") signed_in ∧
  (signed_in = signed_in ∧
   ∀ status text, Response 401 (Some "{}") = Response status text → ok status = false →
                  PlainError "Login failed" = PlainError "Login failed").
Proof.
  split; [reflexivity|].
  apply (failed_login_changes_nothing signed_in signed_in (Response 401 (Some "{}"))).
  reflexivity.
Defined.

Lemma login_settle_resolves
    (s s' : Site) (fetched : Fetched) (data : Value) :
  login_settle fetched s = Done data s' ↔
  ∃ status body access_token text,
    fetched = Response status (Some body) ∧ ok status = true ∧
    JSON.parse body = Some data ∧
    get_prop data "access_token" = inr access_token ∧
    ToString (number_text s) access_token = inr text ∧
    s' = set_world (set_localStorage (<["token" := text]> (storage s)) (world s)) s.
Proof.
  split.
  - destruct fetched as [message|status text]; [done|].
    unfold login_settle. destruct (ok status) eqn:Hok; cbn [negb]; [|done].
    unfold response_json. api.
    destruct text as [t|]; [|done].
    destruct (JSON.parse t) as [v|] eqn:Hp; [|done].
    destruct (get_prop v "access_token") as [err|tok] eqn:Hg; [done|].
    destruct (ToString (number_text s) tok) as [err|text] eqn:Ht; [done|].
    intros [= <- <-]. by exists status, t, tok, text.
  - intros (status & body & tok & text & -> & Hok & Hp & Hg & Ht & ->).
    unfold login_settle. rewrite Hok. cbn [negb]. unfold response_json. api.
    by rewrite Hp, Hg, Ht.
Qed.

(** X19.  [api.login] resolves exactly when the status is in 200..299, the
    body is JSON other than [null], and its [access_token] has a text; it
    then returns the parsed body, and all it changes is the stored token,
    which becomes that text. *)
Theorem login_stores_the_access_token
    (s s' : Site) (fetched : Fetched) (data : Value) :
  login_settle fetched s = Done data s' ↔
  ∃ status body access_token text,
    fetched = Response status (Some body) ∧ ok status = true ∧
    JSON.parse body = Some data ∧
    get_prop data "access_token" = inr access_token ∧
    ToString (number_text s) access_token = inr text ∧
    s' = set_world (set_localStorage (<["token" := text]> (storage s)) (world s)) s.
Proof. apply login_settle_resolves. Qed.

Lemma login_stores_the_access_token_witness :
  ∃ s',
    login_settle (Response 200 (Some (json "{'access_token': 'xyz', 'token_type': 'bearer'}")))
                 signed_in
    = Done (Obj [("access_token", Str "xyz"); ("token_type", Str "bearer")]) s' ∧
    storage s' !! "token" = Some "xyz".
Proof.
  eexists. split.
  - apply (login_stores_the_access_token signed_in).
    eexists 200, _, (Str "xyz"), "xyz". repeat split; reflexivity.
  - reflexivity.
Defined.

(** X20.  A successful response without an [access_token] still signs the
    user in: the token stored is the text undefined, [isAuthenticated]
    answers true, requests carry Bearer undefined and the stream is asked
    for [token=undefined]. *)
Theorem login_without_access_token_stores_undefined
    (s : Site) (status : nat) (body : string) (props : list (string * Value)) :
  ok status = true →
  JSON.parse body = Some (Obj props) →
  assoc_last "access_token" props = None →
  ∃ s',
    login_settle (Response status (Some body)) s = Done (Obj props) s' ∧
    storage s' !! "token" = Some "undefined" ∧
    authStore_isAuthenticated s' = Done true s' ∧
    request_headers (storage s' !! "token") no_options !! "Authorization"
      = Some "Bearer undefined" ∧
    stream_url (world s')
      = API_BASE_URL (world s) +:+ "/streaming/metrics?token=undefined".
Proof.
  intros Hok Hp Hnone. eexists. split.
  - apply login_settle_resolves.
    exists status, body, Undefined, "undefined". repeat split; try done.
    cbn [get_prop]. by rewrite Hnone.
  - unfold storage, stream_url, API_BASE_URL. api. unfold storage.
    cbn [world localStorage VITE_API_URL set_world set_localStorage].
    rewrite lookup_insert_eq. repeat split; reflexivity.
Qed.

Lemma login_without_access_token_stores_undefined_witness :
  ∃ s',
    login_settle (Response 200 (Some "{}")) (site_of page0) = Done (Obj []) s' ∧
    authStore_isAuthenticated s' = Done true s'.
Proof.
  destruct (login_without_access_token_stores_undefined (site_of page0) 200 "{}" []
              eq_refl eq_refl eq_refl) as (s' & H1 & _ & H2 & _).
  exists s'. split; [exact H1|exact H2].
Defined.

(** ** App.svelte *)

(** X21.  Logging out removes the token, clears the flag and goes to [/],
    keeping every other storage key; a reload then leaves the flag false
    ([onMount] finds no token), and a stream opened afterwards asks for
    [token=null]. *)
Theorem logout_forgets_the_token (s : Site) :
  ∃ s',
    handleLogout s = Done () s' ∧
    storage s' !! "token" = None ∧
    (∀ k, k ≠ "token" → storage s' !! k = storage s !! k) ∧
    isAuthenticated s' = false ∧
    href s' = "/" ∧
    App_onMount s' = Done () s' ∧
    stream_url (world s')
      = API_BASE_URL (world s) +:+ "/streaming/metrics?token=null".
Proof.
  eexists. split; [reflexivity|].
  unfold App_onMount, stream_url, API_BASE_URL. api. unfold storage.
  cbn [world href isAuthenticated localStorage VITE_API_URL set_world set_href
       set_isAuthenticated set_localStorage].
  rewrite lookup_delete_eq. repeat split; try reflexivity.
  intros k Hk. by rewrite lookup_delete_ne.
Qed.

(** ** pages/Login.svelte *)

(** X22.  Submitting the login form.  When [api.login] resolves, the flag
    of [App.svelte] becomes true and the form shows no new error; when it
    rejects, for whatever reason, the form shows Invalid username or
    password and storage, the address and the flag are as before.  Either
    way [loading] ends false. *)
Theorem login_form_signs_in_exactly_when_login_resolves
    (fetched : Fetched) (p : Login.Page) (s : Site) :
  match login_settle fetched s with
  | Done _ s1 =>
      Login.handleLogin_settle fetched p s
      = Done (Login.set_loading false p) (set_isAuthenticated true s1)
  | Fail _ _ =>
      Login.handleLogin_settle fetched p s
      = Done (Login.set_loading false
                (Login.set_error "Invalid username or password" p)) s
  end.
Proof.
  unfold Login.handleLogin_settle, handleLogin. api.
  destruct (login_settle fetched s) as [data s1|e s1] eqn:Hlogin; [done|].
  destruct (failed_login_changes_nothing_aux s s1 fetched e Hlogin) as [-> _]. done.
Qed.

(** ** api.trainModel *)

Lemma keeps_site_request_prepare (endpoint : string) (options : Options) :
  keeps_site (request_prepare endpoint options).
Proof. done. Qed.

(** X23.  [api.trainModel] knows four models.  For the strings lstm,
    iforest, prophet and dbscan it prepares a POST without a body to
    [/ml/train/] followed by the name, with [?periods=30] added for
    prophet.  For any other value, a string or not, it sends nothing and
    throws, with the message Unknown model type: followed by the value's
    text when the value has one.  In neither case does it change
    anything. *)
Theorem trainModel_knows_four_models (modelId : Value) (s : Site) :
  (∀ id, id ∈ ["lstm"; "iforest"; "prophet"; "dbscan"] → modelId = Str id →
     trainModel_prepare modelId s
     = Done (mkRequest (API_BASE_URL (world s) +:+ train_endpoint id)
               (Some "POST") (request_headers (storage s !! "token") post) None) s) ∧
  ((∀ id, id ∈ ["lstm"; "iforest"; "prophet"; "dbscan"] → modelId ≠ Str id) →
     trainModel_prepare modelId s
     = Fail (match ToString (number_text s) modelId with
             | inr text => PlainError ("Unknown model type: " +:+ text)
             | inl e => JsError e
             end) s).
Proof.
  split.
  - intros id Hid ->.
    repeat (apply elem_of_cons in Hid as [->|Hid]; [reflexivity|]).
    by apply elem_of_nil in Hid.
  - intros Hnot. unfold trainModel_prepare.
    assert (Hstr : ∀ id, id ∈ ["lstm"; "iforest"; "prophet"; "dbscan"] →
                         is_str modelId id = false).
    { intros id Hid. destruct modelId as [| | | |t| |]; try reflexivity.
      cbn [is_str]. destruct (String.eqb_spec t id) as [->|]; [|done].
      by destruct (Hnot id Hid). }
    rewrite !Hstr by (repeat constructor). api.
    by destruct (ToString (number_text s) modelId).
Qed.

Lemma trainModel_knows_four_models_witness :
  trainModel_prepare (Str "prophet") signed_in
  = Done (mkRequest "http://localhost:8000/api/v1/ml/train/prophet?periods=30"
            (Some "POST") (request_headers (Some "abc") post) None) signed_in ∧
  trainModel_prepare (Str "LSTM") signed_in
  = Fail (PlainError "Unknown model type: LSTM") signed_in.
Proof.
  destruct (trainModel_knows_four_models (Str "prophet") signed_in) as [Hknown _].
  destruct (trainModel_knows_four_models (Str "LSTM") signed_in) as [_ Hunknown].
  split.
  - apply (Hknown "prophet"); [repeat constructor|reflexivity].
  - apply Hunknown. intros id Hid.
    repeat (apply elem_of_cons in Hid as [->|Hid]; [discriminate|]).
    by apply elem_of_nil in Hid.
Defined.

(** ** pages/MLModels.svelte *)

(** X24.  Starting a training from the page.  When the request resolves
    with a value other than [null], the task of the model is replaced by
    a PENDING one at progress 0 under the response's [task_id] (absent or
    not), and a new interval is started for it; the intervals already
    running are kept, one for the same model included.  When the request
    fails, or resolves with [null], one alert is shown and the tasks and
    intervals are as before.  Interval numbers stay below the next one to
    be given out. *)
Theorem training_start_adds_a_poller
    (modelId : string) (fetched : Fetched) (p : MLModels.Page) (s : Site) :
  (∀ i, is_Some (MLModels.intervals p !! i) → i < MLModels.next_interval p) →
  ∃ p' s',
    MLModels.trainModel_settle modelId fetched p s = Done p' s' ∧
    s' = site_after (request_settle fetched s) ∧
    (∀ i, is_Some (MLModels.intervals p' !! i) → i < MLModels.next_interval p') ∧
    match request_settle fetched s with
    | Done ((Obj _ | Arr _ | Bool _ | Num _ | Str _) as response) _ =>
        ∃ task_id,
          get_prop response "task_id" = inr task_id ∧
          MLModels.trainingTasks p' !! modelId
            = Some (MLModels.mkTask task_id (Str "PENDING") zero) ∧
          (∀ m, m ≠ modelId →
                MLModels.trainingTasks p' !! m = MLModels.trainingTasks p !! m) ∧
          MLModels.intervals p !! MLModels.next_interval p = None ∧
          MLModels.intervals p' !! MLModels.next_interval p = Some (modelId, task_id) ∧
          (∀ i, i ≠ MLModels.next_interval p →
                MLModels.intervals p' !! i = MLModels.intervals p !! i) ∧
          MLModels.alerts p' = MLModels.alerts p
    | Done (Null | Undefined) _ =>
        p' = MLModels.alert ("Failed to start training: " +:+ error_message null_error) p
    | Fail e _ =>
        p' = MLModels.alert ("Failed to start training: " +:+ exn_message e) p
    end.
Proof.
  intros Hfresh.
  assert (Hnew : MLModels.intervals p !! MLModels.next_interval p = None).
  { destruct (MLModels.intervals p !! MLModels.next_interval p) eqn:Hi; [|done].
    assert (MLModels.next_interval p < MLModels.next_interval p); [|lia].
    apply Hfresh. by rewrite Hi. }
  assert (Hstarted : ∀ task_id tasks i,
    is_Some (MLModels.intervals
               (MLModels.pollTrainingStatus modelId task_id
                  (MLModels.set_trainingTasks tasks p)) !! i) →
    i < S (MLModels.next_interval p)).
  { intros task_id tasks i. unfold MLModels.pollTrainingStatus.
    cbn [MLModels.intervals MLModels.next_interval MLModels.set_trainingTasks].
    destruct (decide (i = MLModels.next_interval p)) as [->|Hi]; [lia|].
    rewrite lookup_insert_ne by done. intros Hrun. specialize (Hfresh i Hrun). lia. }
  unfold MLModels.trainModel_settle. api.
  destruct (request_settle fetched s) as [response s1|e s1]; cbn [site_after].
  - destruct response as [| |b|n|t|elems|props]; cbn [get_prop]; eexists _, _;
      (split; [reflexivity|]); (split; [reflexivity|]);
      try (split; [exact Hfresh|reflexivity]);
      (split; [apply Hstarted|]);
      eexists; (split; [reflexivity|]);
      unfold MLModels.pollTrainingStatus;
      cbn [MLModels.trainingTasks MLModels.intervals MLModels.next_interval
           MLModels.alerts MLModels.set_trainingTasks];
      rewrite !lookup_insert_eq; repeat split; try reflexivity; try exact Hnew;
      intros m Hm; by rewrite lookup_insert_ne.
  - eexists _, _. by repeat split.
Qed.

Lemma training_start_adds_a_poller_witness :
  ∃ p',
    MLModels.trainModel_settle "lstm" (Response 200 (Some started_text)) training signed_in
    = Done p' signed_in ∧
    MLModels.intervals p' !! 0 = Some ("lstm", Str "t1") ∧
    MLModels.intervals p' !! 1 = Some ("lstm", Str "t2") ∧
    MLModels.trainingTasks p' !! "lstm"
    = Some (MLModels.mkTask (Str "t2") (Str "PENDING") zero).
Proof.
  assert (Hfresh : ∀ i, is_Some (MLModels.intervals training !! i) →
                        i < MLModels.next_interval training).
  { intros i. destruct i as [|i]; [cbn; lia|].
    unfold training. cbn [MLModels.intervals].
    rewrite lookup_singleton_ne by done. by intros [? ?]. }
  destruct (training_start_adds_a_poller "lstm" (Response 200 (Some started_text))
              training signed_in Hfresh) as (p' & s' & Hrun & _).
  exists p'. vm_compute in Hrun. injection Hrun as <- <-.
  split; [reflexivity|]. split; [reflexivity|]. split; reflexivity.
Defined.

Lemma poll_assign_intervals
    (modelId : string) (interval : nat) (response : Value) (p : MLModels.Page) :
  match MLModels.poll_assign modelId interval response p with
  | inr p' =>
      ∃ task st pr,
        MLModels.trainingTasks p !! modelId = Some task ∧
        get_prop response "status" = inr st ∧
        get_prop response "progress" = inr pr ∧
        MLModels.trainingTasks p' =
          <[modelId := MLModels.mkTask (MLModels.taskId task) st
                         (if is_str st "SUCCESS" then hundred else pr)]>
            (MLModels.trainingTasks p) ∧
        MLModels.intervals p' =
          (if is_str st "SUCCESS" then delete interval (MLModels.intervals p)
           else MLModels.intervals p) ∧
        MLModels.next_interval p' = MLModels.next_interval p ∧
        MLModels.alerts p' = MLModels.alerts p
  | inl p' =>
      p' = p ∧
      (MLModels.trainingTasks p !! modelId = None ∨ response = Null ∨ response = Undefined)
  end.
Proof.
  unfold MLModels.poll_assign.
  destruct (MLModels.trainingTasks p !! modelId) as [task|] eqn:Htask; [|by split; [|left]].
  destruct response as [| |b|n|t|elems|props]; cbn [get_prop];
    try (by split; [|right; (by left) || (by right)]).
  all: cbn [is_str]; cbv beta iota zeta;
         try match goal with
             | |- context [is_str ?st "SUCCESS"] =>
                 destruct (is_str st "SUCCESS") eqn:Hsuccess
             end;
         exists task; do 2 eexists; (split; [reflexivity|]); (split; [reflexivity|]);
         (split; [reflexivity|]); cbn [is_str]; rewrite ?Hsuccess;
         cbn [MLModels.trainingTasks MLModels.intervals MLModels.next_interval
              MLModels.alerts MLModels.set_trainingTasks MLModels.set_intervals
              MLModels.clearInterval];
         repeat split;
         rewrite ?alter_insert_eq, ?insert_insert_eq; reflexivity.
Qed.

(** X25.  What stops a poller.  After the callback of an interval has
    dealt with a response, the interval is still running exactly when it
    was running before, the model had a task, the request resolved with a
    value other than [null], and the [status] of the response is not the
    string SUCCESS.  So a reported FAILURE, like any other status, keeps
    the interval polling.  No other interval is stopped or started. *)
Theorem poller_stops_only_on_success_or_error
    (modelId : string) (interval : nat) (fetched : Fetched)
    (p : MLModels.Page) (s : Site) :
  ∃ p' s',
    MLModels.poll_settle modelId interval fetched p s = Done p' s' ∧
    s' = site_after (request_settle fetched s) ∧
    (∀ i, i ≠ interval → MLModels.intervals p' !! i = MLModels.intervals p !! i) ∧
    MLModels.next_interval p' = MLModels.next_interval p ∧
    MLModels.alerts p' = MLModels.alerts p ∧
    (is_Some (MLModels.intervals p' !! interval) ↔
     is_Some (MLModels.intervals p !! interval) ∧
     is_Some (MLModels.trainingTasks p !! modelId) ∧
     ∃ response st,
       request_settle fetched s = Done response s' ∧
       get_prop response "status" = inr st ∧
       st ≠ Str "SUCCESS").
Proof.
  unfold MLModels.poll_settle.
  destruct (request_settle fetched s) as [response s1|e s1]; cbn [site_after].
  - pose proof (poll_assign_intervals modelId interval response p) as Hassign.
    destruct (MLModels.poll_assign modelId interval response p) as [p1|p1].
    + destruct Hassign as [-> Hwhy]. eexists _, _. split; [reflexivity|].
      split; [reflexivity|].
      cbn [MLModels.clearInterval MLModels.set_intervals MLModels.intervals
           MLModels.next_interval MLModels.alerts].
      split; [by intros i Hi; rewrite lookup_delete_ne|].
      split; [done|]. split; [done|].
      rewrite lookup_delete_eq. split; [by intros [? ?]|].
      intros (_ & [task Htask] & response' & st & [= <-] & Hst & _).
      destruct Hwhy as [Hnone|[->| ->]]; [by rewrite Htask in Hnone|done|done].
    + destruct Hassign as (task & st & pr & Htask & Hst & Hpr & _ & Hint & Hnext & Halerts).
      eexists _, _. split; [reflexivity|]. split; [reflexivity|].
      rewrite Hint, Hnext, Halerts.
      split.
      { intros i Hi. destruct (is_str st "SUCCESS"); [by rewrite lookup_delete_ne|done]. }
      split; [done|]. split; [done|].
      destruct (is_str st "SUCCESS") eqn:Hsucc.
      * rewrite lookup_delete_eq. split; [by intros [? ?]|].
        intros (_ & _ & response' & st' & [= <-] & Hst' & Hne).
        rewrite Hst in Hst'. simplify_eq.
        destruct st' as [| | | |t| |]; try discriminate.
        cbn [is_str] in Hsucc. apply String.eqb_eq in Hsucc. by subst.
      * split.
        -- intros Hrun. split; [done|]. split; [by eexists|].
           exists response, st. repeat split; [done|]. intros ->. discriminate.
        -- by intros [? _].
  - eexists _, _. split; [reflexivity|]. split; [reflexivity|].
    cbn [MLModels.clearInterval MLModels.set_intervals MLModels.intervals
         MLModels.next_interval MLModels.alerts].
    split; [by intros i Hi; rewrite lookup_delete_ne|].
    split; [done|]. split; [done|].
    rewrite lookup_delete_eq. split; [by intros [? ?]|].
    by intros (_ & _ & ? & ? & ? & _).
Qed.

Lemma poller_stops_only_on_success_or_error_witness :
  ∃ p',
    MLModels.poll_settle "lstm" 0 (Response 200 (Some failure_text)) training signed_in
    = Done p' signed_in ∧
    MLModels.intervals p' !! 0 = Some ("lstm", Str "t1") ∧
    MLModels.status <$> MLModels.trainingTasks p' !! "lstm" = Some (Str "FAILURE").
Proof.
  destruct (poller_stops_only_on_success_or_error "lstm" 0
              (Response 200 (Some failure_text)) training signed_in)
    as (p' & s' & Hrun & _).
  exists p'. vm_compute in Hrun. injection Hrun as <- <-.
  split; [reflexivity|]. split; reflexivity.
Defined.

(** X26.  What a poller records.  When the request resolves with a value
    other than [null] and the model has a task, the task keeps its
    [taskId] and takes the [status] of the response; its [progress] is
    that of the response, except that with the status SUCCESS it is 100
    whatever the response says.  Otherwise (the request failed, the
    response is [null], or the model has no task) the tasks are as
    before. *)
Theorem poller_records_status_and_progress
    (modelId : string) (interval : nat) (fetched : Fetched)
    (p : MLModels.Page) (s : Site) :
  ∃ p' s',
    MLModels.poll_settle modelId interval fetched p s = Done p' s' ∧
    match request_settle fetched s, MLModels.trainingTasks p !! modelId with
    | Done ((Obj _ | Arr _ | Bool _ | Num _ | Str _) as response) _, Some task =>
        ∃ st pr,
          get_prop response "status" = inr st ∧
          get_prop response "progress" = inr pr ∧
          MLModels.trainingTasks p' =
            <[modelId := MLModels.mkTask (MLModels.taskId task) st
                           (if is_str st "SUCCESS" then hundred else pr)]>
              (MLModels.trainingTasks p)
    | _, _ => MLModels.trainingTasks p' = MLModels.trainingTasks p
    end.
Proof.
  unfold MLModels.poll_settle.
  destruct (request_settle fetched s) as [response s1|e s1].
  - pose proof (poll_assign_intervals modelId interval response p) as Hassign.
    destruct (MLModels.poll_assign modelId interval response p) as [p1|p1].
    + destruct Hassign as [-> Hwhy]. eexists _, _. split; [reflexivity|].
      destruct Hwhy as [Hnone|[->| ->]]; [rewrite Hnone| |]; try done.
      by destruct response.
    + destruct Hassign as (task & st & pr & Htask & Hst & Hpr & Htasks & _).
      eexists _, _. split; [reflexivity|]. rewrite Htask.
      destruct response; try discriminate; by exists st, pr.
  - eexists _, _. split; [reflexivity|]. done.
Qed.

(** X27.  What a poller asks for.  The callback of an interval requests
    [/ml/train/status/] followed by the text of its task id, with a plain
    GET and the headers of every request; when the task id has no text it
    stops the interval and requests nothing.  So the poller started by a
    response without a [task_id] asks for [/ml/train/status/undefined]. *)
Theorem poller_asks_for_the_task_by_its_text
    (interval : nat) (task_id : Value) (p : MLModels.Page) (s : Site) :
  match ToString (number_text s) task_id with
  | inr text =>
      MLModels.poll_prepare interval task_id p s
      = Done (p, Some (mkRequest (API_BASE_URL (world s) +:+ "/ml/train/status/" +:+ text)
                         None (request_headers (storage s !! "token") no_options) None)) s
  | inl _ =>
      MLModels.poll_prepare interval task_id p s
      = Done (MLModels.clearInterval interval p, None) s
  end ∧
  (∀ modelId fetched props,
     request_settle fetched s = Done (Obj props) s →
     assoc_last "task_id" props = None →
     ∃ p',
       MLModels.trainModel_settle modelId fetched p s = Done p' s ∧
       MLModels.intervals p' !! MLModels.next_interval p = Some (modelId, Undefined) ∧
       MLModels.poll_prepare (MLModels.next_interval p) Undefined p' s
       = Done (p', Some (mkRequest
                           (API_BASE_URL (world s) +:+ "/ml/train/status/undefined")
                           None (request_headers (storage s !! "token") no_options) None)) s).
Proof.
  split.
  - unfold MLModels.poll_prepare, getTrainingStatus_prepare. api.
    by destruct (ToString (number_text s) task_id).
  - intros modelId fetched props Hdone Hnone. eexists. split.
    + unfold MLModels.trainModel_settle. api. rewrite Hdone. cbn [get_prop].
      rewrite Hnone. reflexivity.
    + unfold MLModels.pollTrainingStatus.
      cbn [MLModels.intervals MLModels.next_interval MLModels.set_trainingTasks default].
      rewrite lookup_insert_eq. split; reflexivity.
Qed.

Lemma poller_asks_for_the_task_by_its_text_witness :
  request_settle (Response 200 (Some "{}")) signed_in = Done (Obj []) signed_in ∧
  ∃ p',
    MLModels.trainModel_settle "dbscan" (Response 200 (Some "{}")) training signed_in
    = Done p' signed_in ∧
    MLModels.poll_prepare 1 Undefined p' signed_in
    = Done (p', Some (mkRequest "http://localhost:8000/api/v1/ml/train/status/undefined"
                        None (request_headers (Some "abc") no_options) None)) signed_in.
Proof.
  split; [reflexivity|].
  destruct (poller_asks_for_the_task_by_its_text 0 Null training signed_in) as [_ Hstart].
  destruct (Hstart "dbscan" (Response 200 (Some "{}")) [] eq_refl eq_refl)
    as (p' & Hrun & _ & Hask).
  exists p'. split; [exact Hrun|exact Hask].
Defined.

(** * pages/Dashboard.svelte: its stream *)

Lemma set_stats_back (x : gmap string Value) (w : World) :
  set_stats (stats w) (set_stats x w) = w.
Proof. by destruct w. Qed.

Lemma dashboard_onmessage_parsed (data : string) (v : Value) (w : World) :
  JSON.parse data = Some v →
  Dashboard.onmessage data w = Return () (set_stats (spread (stats w) v) w).
Proof.
  intros Hp. unfold Dashboard.onmessage.
  by rewrite bind_unfold, (run_JSON_parse_ok _ _ _ Hp).
Qed.

(** X28.  The dashboard's [message] listener has no gate and reads no
    field.  On text that is not JSON it throws before assigning anything.
    On any JSON, [null] and the other primitives included, it completes:
    every own field of the payload takes the payload's value in [stats],
    every other key of [stats] keeps its value, and nothing but [stats]
    is assigned. *)
Theorem dashboard_listener_merges_any_json (data : string) (w : World) :
  match JSON.parse data with
  | None => Dashboard.onmessage data w = Throw json_error w
  | Some v =>
      ∃ w',
        Dashboard.onmessage data w = Return () w' ∧
        (∀ k, stats w' !! k =
              match assoc_last k (own_props v) with
              | Some x => Some x
              | None => stats w !! k
              end) ∧
        set_stats (stats w) w' = w
  end.
Proof.
  destruct (JSON.parse data) as [v|] eqn:Hp.
  - eexists. split; [by apply dashboard_onmessage_parsed|].
    cbn [stats set_stats]. split; [apply spread_lookup|apply set_stats_back].
  - unfold Dashboard.onmessage. by rewrite bind_unfold, (run_JSON_parse_fail _ _ Hp).
Qed.

(** X29.  A transport error ends the dashboard's stream for good.  Its
    [onerror] closes the source the page holds and does nothing else: no
    timer is set, no source is made, [stats] and the page's handle are as
    before, so that [onDestroy] closes the same source again, to no
    effect.  The monitoring page's [onerror], in the same world, adds a
    timer. *)
Theorem dashboard_error_closes_without_retry (w : World) (h : nat) :
  eventSource w = Some h →
  is_Some (sources w !! h) →
  ∃ w',
    Dashboard.onerror w = Return () w' ∧
    ready h w' = Some CLOSED ∧
    (∀ i, i ≠ h → ready i w' = ready i w) ∧
    timers w' = timers w ∧
    stats w' = stats w ∧
    eventSource w' = Some h ∧
    Dashboard.onDestroy w' = Return () w' ∧
    timers (run onerror w).1 = timers w ++ [mkTimer (clock w) 3000].
Proof.
  intros Hheld [es Hes].
  exists (set_sources (alter close_source h (sources w)) w).
  unfold Dashboard.onerror, Dashboard.onDestroy, run, onerror, close_current,
    EventSource_close, setTimeout_connectSSE, ready.
  exec. cbn [eventSource sources timers stats set_sources set_metrics set_connected
             set_timers clock].
  rewrite Hheld. cbn [fst timers set_timers set_sources sources].
  rewrite list_lookup_alter_eq, Hes, list_alter_alter_eq.
  repeat split; try reflexivity.
  intros i Hi. by rewrite list_lookup_alter_ne.
Qed.

Lemma dashboard_error_closes_without_retry_witness :
  ∃ w',
    Dashboard.onerror page1 = Return () w' ∧
    ready 0 w' = Some CLOSED ∧
    timers w' = [].
Proof.
  destruct (dashboard_error_closes_without_retry page1 0 eq_refl (mk_is_Some _ _ eq_refl))
    as (w' & Hrun & Hclosed & _ & Htimers & _).
  exists w'. split; [exact Hrun|]. split; [exact Hclosed|exact Htimers].
Defined.

(** X30.  The dashboard opens the stream the monitoring page opens: after
    either [connectSSE] the browser holds the same sources and the page
    the same handle, the address being the one with the stored token or
    [token=null].  They differ when the browser refuses the address: the
    monitoring page logs the failure, the dashboard leaves its world
    untouched. *)
Theorem dashboard_opens_the_same_stream (w : World) :
  ∃ wd wm,
    Dashboard.connectSSE w = Return () wd ∧
    connectSSE w = Return () wm ∧
    sources wd = sources wm ∧
    eventSource wd = eventSource wm ∧
    timers wd = timers w ∧
    match url_error w (stream_url w) with
    | None =>
        wd = wm ∧
        sources wd = sources w ++ [mkEventSource (stream_url w) CONNECTING] ∧
        eventSource wd = Some (length (sources w))
    | Some msg =>
        wd = w ∧ length (metrics wm) = S (length (take 99 (metrics w)))
    end.
Proof.
  destruct (url_error w (stream_url w)) as [msg|] eqn:Hu.
  - exists w. eexists. split.
    { unfold Dashboard.connectSSE, try_catch. rewrite bind_unfold, createEventSource_run.
      unfold new_EventSource. fold (stream_url w). by rewrite Hu. }
    split; [by apply (connectSSE_rejected w msg)|]. done.
  - eexists _, _. split.
    { unfold Dashboard.connectSSE, try_catch. rewrite bind_unfold, createEventSource_run.
      unfold new_EventSource. fold (stream_url w). rewrite Hu. reflexivity. }
    split; [by apply connectSSE_accepted|]. done.
Qed.
